(** * backup_utility.c: a shallow embedding and its verification

    The program copies one file to another through a 1024-byte buffer,
    using the C stdio calls [fopen], [fread], [fwrite], [fclose],
    [perror], [printf], [fprintf] and [exit].  The embedding keeps the
    shape of the C text: [backup_file] and [main] are written in a small
    state-and-exit monad over a [World] that holds what the C library and
    the operating system hold for the process: the files, the table of
    open streams, [errno], and the sequence of observable events.

    What the operating system may do behind the program's back (a read or
    a write that transfers fewer bytes than asked for) is given by two
    fault schedules carried in the world, one entry per [fread] call and
    one per [fwrite] call.

    Three things are fixed by the model.  A path is the identity of a
    file: two different paths are two different files.  The buffering
    inside a stream is not shown: the bytes [fwrite] reports as written
    are in the file when it returns.  The [while] loop takes fuel; every
    statement about a run gives a bound on the fuel above which the run
    ends, namely the length of the source. *)

From Stdlib Require Import Strings.Byte ZArith.
From stdpp Require Import gmap strings list fin_maps relations.

Local Open Scope stdpp_scope.

(** ** Constants of the C library *)

(** [EXIT_SUCCESS] and [EXIT_FAILURE] of <stdlib.h>, with their usual
    values 0 and 1. *)
Definition EXIT_SUCCESS : Z := 0%Z.
Definition EXIT_FAILURE : Z := 1%Z.

(** The line feed character written by "\n". *)
Definition nl : string := String (Ascii.ascii_of_nat 10) EmptyString.

(** The error numbers an open can set, and the text [perror] prints for
    them. *)
Inductive errno_t := E0 | ENOENT | EACCES.

Definition strerror (e : errno_t) : string :=
  match e with
  | E0 => "Success"
  | ENOENT => "No such file or directory"
  | EACCES => "Permission denied"
  end.

(** ** Files, streams and events *)

Record file := File {
  f_data : list byte;
  f_readable : bool;
  f_writable : bool
}.

Definition with_data (d : list byte) (f : file) : file :=
  File d (f_readable f) (f_writable f).

(** The two modes the program passes to [fopen]. *)
Inductive mode := rb | wb.

(** A [FILE *] is a key of the stream table. *)
Definition handle := nat.

Record stream := Stream {
  s_path : string;
  s_pos : nat
}.

Definition advance (n : nat) (st : stream) : stream :=
  Stream (s_path st) (s_pos st + n).

Inductive event :=
| EvOpen (path : string) (m : mode) (res : option handle)
| EvRead (h : handle) (n : nat)
| EvWrite (h : handle) (req n : nat)
| EvClose (h : handle)
| EvStdout (s : string)
| EvStderr (s : string).

Record World := mkWorld {
  w_fs : gmap string file;
  w_create : string -> option errno_t;
  w_streams : gmap nat stream;
  w_errno : errno_t;
  w_rfaults : list (option nat);
  w_wfaults : list (option nat);
  w_stack : list byte;
  w_trace : list event
}.

Definition set_fs (fs : gmap string file) (w : World) : World :=
  mkWorld fs (w_create w) (w_streams w) (w_errno w) (w_rfaults w)
          (w_wfaults w) (w_stack w) (w_trace w).

Definition set_streams (ss : gmap nat stream) (w : World) : World :=
  mkWorld (w_fs w) (w_create w) ss (w_errno w) (w_rfaults w)
          (w_wfaults w) (w_stack w) (w_trace w).

Definition set_errno (e : errno_t) (w : World) : World :=
  mkWorld (w_fs w) (w_create w) (w_streams w) e (w_rfaults w)
          (w_wfaults w) (w_stack w) (w_trace w).

Definition set_rfaults (l : list (option nat)) (w : World) : World :=
  mkWorld (w_fs w) (w_create w) (w_streams w) (w_errno w) l
          (w_wfaults w) (w_stack w) (w_trace w).

Definition set_wfaults (l : list (option nat)) (w : World) : World :=
  mkWorld (w_fs w) (w_create w) (w_streams w) (w_errno w) (w_rfaults w)
          l (w_stack w) (w_trace w).

Definition log (e : event) (w : World) : World :=
  mkWorld (w_fs w) (w_create w) (w_streams w) (w_errno w) (w_rfaults w)
          (w_wfaults w) (w_stack w) (w_trace w ++ [e]).

(** What the process is started with: the files, which absent paths can
    be created ([None]) or not ([Some e]), the fault schedules, and the
    bytes that happen to lie where [buffer] will be allocated. *)
Record Env := mkEnv {
  e_fs : gmap string file;
  e_create : string -> option errno_t;
  e_rfaults : list (option nat);
  e_wfaults : list (option nat);
  e_stack : list byte
}.

Definition boot (e : Env) : World :=
  mkWorld (e_fs e) (e_create e) ∅ E0 (e_rfaults e) (e_wfaults e)
          (e_stack e) [].

(** ** The monad: state, plus [exit] *)

Inductive outcome (A : Type) :=
| Ret (a : A)
| Exit (status : Z)
| OutOfFuel.
Arguments Ret {A} a.
Arguments Exit {A} status.
Arguments OutOfFuel {A}.

Definition M (A : Type) : Type := World -> outcome A * World.

Definition ret {A} (a : A) : M A := fun w => (Ret a, w).

Definition bind {A B} (m : M A) (k : A -> M B) : M B := fun w =>
  match m w with
  | (Ret a, w') => k a w'
  | (Exit c, w') => (Exit c, w')
  | (OutOfFuel, w') => (OutOfFuel, w')
  end.

Notation "'let*' x ':=' m 'in' k" := (bind m (fun x => k))
  (at level 10, x name, m at level 100, k at level 200).
Notation "m >> k" := (bind m (fun _ => k))
  (at level 100, k at level 200, right associativity).

(** [exit(status)]: the process ends here; nothing after it runs. *)
Definition exit {A} (status : Z) : M A := fun w => (Exit status, w).

Definition out_of_fuel {A} : M A := fun w => (OutOfFuel, w).

(** ** The stdio calls the program makes *)

Definition open_error_rb (fs : gmap string file) (path : string)
  : option errno_t :=
  match fs !! path with
  | None => Some ENOENT
  | Some f => if f_readable f then None else Some EACCES
  end.

Definition open_error_wb (fs : gmap string file)
    (create : string -> option errno_t) (path : string) : option errno_t :=
  match fs !! path with
  | Some f => if f_writable f then None else Some EACCES
  | None => create path
  end.

(** The file a successful "wb" open leaves at [path]: an existing file
    is cut to length zero, an absent one is created empty. *)
Definition truncated (fs : gmap string file) (path : string) : file :=
  match fs !! path with
  | Some f => with_data [] f
  | None => File [] true true
  end.

Definition new_stream (path : string) (m : mode) (w : World)
  : outcome (option handle) * World :=
  let h := fresh (dom (w_streams w)) in
  (Ret (Some h),
   log (EvOpen path m (Some h))
       (set_streams (<[h := Stream path 0]> (w_streams w)) w)).

Definition open_failed (path : string) (m : mode) (e : errno_t) (w : World)
  : outcome (option handle) * World :=
  (Ret None, log (EvOpen path m None) (set_errno e w)).

(** [fopen(path, mode)]; [None] is the NULL pointer. *)
Definition fopen (path : string) (m : mode) : M (option handle) := fun w =>
  match m with
  | rb =>
      match open_error_rb (w_fs w) path with
      | Some e => open_failed path rb e w
      | None => new_stream path rb w
      end
  | wb =>
      match open_error_wb (w_fs w) (w_create w) path with
      | Some e => open_failed path wb e w
      | None =>
          new_stream path wb
            (set_fs (<[path := truncated (w_fs w) path]> (w_fs w)) w)
      end
  end.

Definition next_fault (l : list (option nat))
  : option nat * list (option nat) :=
  match l with
  | [] => (None, [])
  | x :: l' => (x, l')
  end.

(** What a call transfers of [want] when the schedule says [flt]. *)
Definition transferred (flt : option nat) (want : list byte) : list byte :=
  match flt with
  | Some k => take k want
  | None => want
  end.

Definition contents (fs : gmap string file) (path : string) : list byte :=
  from_option f_data [] (fs !! path).

(** [fread(buffer, 1, nmemb, h)]: the bytes read overwrite the front of
    [buffer]; the result is the count and the buffer afterwards. *)
Definition fread (buffer : list byte) (nmemb : nat) (h : handle)
  : M (nat * list byte) := fun w =>
  match w_streams w !! h with
  | None => (Ret (0, buffer), w)
  | Some st =>
      let avail := take nmemb (drop (s_pos st) (contents (w_fs w) (s_path st))) in
      let '(flt, rest) := next_fault (w_rfaults w) in
      let got := transferred flt avail in
      (Ret (length got, got ++ drop (length got) buffer),
       log (EvRead h (length got))
           (set_rfaults rest
              (set_streams (<[h := advance (length got) st]> (w_streams w)) w)))
  end.

(** Writing [put] at offset [pos] of a file that holds [old]. *)
Definition write_at (pos : nat) (put old : list byte) : list byte :=
  resize pos x00 old ++ put ++ drop (pos + length put) old.

Definition store (path : string) (pos : nat) (put : list byte)
    (fs : gmap string file) : gmap string file :=
  match fs !! path with
  | Some f => <[path := with_data (write_at pos put (f_data f)) f]> fs
  | None => fs
  end.

(** [fwrite(buffer, 1, nmemb, h)]: the result is the count written. *)
Definition fwrite (buffer : list byte) (nmemb : nat) (h : handle)
  : M nat := fun w =>
  match w_streams w !! h with
  | None => (Ret 0, w)
  | Some st =>
      let req := take nmemb buffer in
      let '(flt, rest) := next_fault (w_wfaults w) in
      let put := transferred flt req in
      (Ret (length put),
       log (EvWrite h (length req) (length put))
           (set_wfaults rest
              (set_streams (<[h := advance (length put) st]> (w_streams w))
                 (set_fs (store (s_path st) (s_pos st) put (w_fs w)) w))))
  end.

Definition fclose (h : handle) : M unit := fun w =>
  (Ret tt, log (EvClose h) (set_streams (delete h (w_streams w)) w)).

Definition perror (s : string) : M unit := fun w =>
  (Ret tt, log (EvStderr (s +:+ ": " +:+ strerror (w_errno w) +:+ nl)) w).

Definition print_stdout (s : string) : M unit := fun w =>
  (Ret tt, log (EvStdout s) w).

Definition print_stderr (s : string) : M unit := fun w =>
  (Ret tt, log (EvStderr s) w).

(** ** The program *)

(** [char buffer[1024]] *)
Definition buffer_size : nat := 1024.

(** The array as allocated: 1024 bytes of whatever the stack holds. *)
Definition alloc_buffer : M (list byte) := fun w =>
  (Ret (resize buffer_size x00 (w_stack w)), w).

(** The [while] loop: each unit of fuel pays for one evaluation of the
    condition [(bytesRead = fread(buffer, 1, sizeof(buffer), srcFile)) > 0]
    and, when it holds, one run of the body. *)
Fixpoint copy_loop (fuel : nat) (srcFile destFile : handle)
    (buffer : list byte) : M unit :=
  match fuel with
  | 0 => out_of_fuel
  | S fuel' =>
      let* r := fread buffer buffer_size srcFile in
      let '(bytesRead, buffer') := r in
      if (0 <? bytesRead)%nat then
        fwrite buffer' bytesRead destFile >>
        copy_loop fuel' srcFile destFile buffer'
      else ret tt
  end.

Definition backup_file (fuel : nat) (source destination : string) : M unit :=
  let* buffer := alloc_buffer in
  let* srcFile := fopen source rb in
  match srcFile with
  | None =>
      perror "Failed to open source file" >>
      exit EXIT_FAILURE
  | Some srcFile =>
      let* destFile := fopen destination wb in
      match destFile with
      | None =>
          perror "Failed to open destination file" >>
          fclose srcFile >>
          exit EXIT_FAILURE
      | Some destFile =>
          copy_loop fuel srcFile destFile buffer >>
          fclose srcFile >>
          fclose destFile
      end
  end.

(** [argv[i]]; reading past the end of [argv] prints as glibc prints a
    null string. *)
Definition arg (argv : list string) (i : nat) : string :=
  nth i argv "(null)".

Definition main (fuel : nat) (argv : list string) : M Z :=
  let argc := length argv in
  if negb (argc =? 3)%nat then
    print_stderr ("Usage: " +:+ arg argv 0 +:+
                  " <source_file> <destination_file>" +:+ nl) >>
    ret EXIT_FAILURE
  else
    backup_file fuel (arg argv 1) (arg argv 2) >>
    print_stdout ("Backup successful from " +:+ arg argv 1 +:+ " to " +:+
                  arg argv 2 +:+ nl) >>
    ret EXIT_SUCCESS.

(** The exit status of the process ([None]: the fuel ran out) and the
    world it leaves. *)
Definition run (fuel : nat) (argv : list string) (e : Env)
  : option Z * World :=
  match main fuel argv (boot e) with
  | (Ret c, w) => (Some c, w)
  | (Exit c, w) => (Some c, w)
  | (OutOfFuel, w) => (None, w)
  end.

(** ** Reading the trace *)

Definition stdout_of (tr : list event) : string :=
  foldr (fun e acc => match e with EvStdout s => s +:+ acc | _ => acc end)
        "" tr.

Definition stderr_of (tr : list event) : string :=
  foldr (fun e acc => match e with EvStderr s => s +:+ acc | _ => acc end)
        "" tr.

Definition is_file_io (e : event) : bool :=
  match e with
  | EvStdout _ | EvStderr _ => false
  | _ => true
  end.

Definition bytes_read (tr : list event) : nat :=
  foldr (fun e acc => match e with EvRead _ n => n + acc | _ => acc end) 0 tr.

Definition bytes_written (tr : list event) : nat :=
  foldr (fun e acc => match e with EvWrite _ _ n => n + acc | _ => acc end)
        0 tr.

(** No [fwrite] of the trace transferred fewer bytes than requested. *)
Definition full_writes (tr : list event) : Prop :=
  Forall (fun e => match e with EvWrite _ req n => n = req | _ => True end) tr.

(** No entry of a schedule is a fault. *)
Definition no_faults (l : list (option nat)) : Prop := Forall (eq None) l.

Definition substring_of (s t : string) : Prop :=
  exists pre post, t = pre +:+ s +:+ post.

(** ** Definitions used by the statements *)

(** The part of [backup_file] before the loop: the two opens with their
    failure exits, returning the two streams. *)
Definition open_both (source destination : string) : M (handle * handle) :=
  let* s := fopen source rb in
  match s with
  | None =>
      perror "Failed to open source file" >>
      exit EXIT_FAILURE
  | Some srcFile =>
      let* d := fopen destination wb in
      match d with
      | None =>
          perror "Failed to open destination file" >>
          fclose srcFile >>
          exit EXIT_FAILURE
      | Some destFile => ret (srcFile, destFile)
      end
  end.

(** One pass through the [while] of [copy_loop]: the condition and, when
    it holds, the body.  [Some buffer'] when the body ran, [None] when
    the condition failed. *)
Definition loop_body (srcFile destFile : handle) (buffer : list byte)
  : M (option (list byte)) :=
  let* r := fread buffer buffer_size srcFile in
  let '(bytesRead, buffer') := r in
  if (0 <? bytesRead)%nat then
    fwrite buffer' bytesRead destFile >>
    ret (Some buffer')
  else ret None.

(** The message of the usage failure. *)
Definition usage (prog : string) : string :=
  "Usage: " +:+ prog +:+ " <source_file> <destination_file>" +:+ nl.

Definition source_open_msg (e : errno_t) : string :=
  "Failed to open source file" +:+ ": " +:+ strerror e +:+ nl.

Definition dest_open_msg (e : errno_t) : string :=
  "Failed to open destination file" +:+ ": " +:+ strerror e +:+ nl.

(** The chunk an [fread] of [n] bytes on stream [st] delivers in [w]. *)
Definition read_chunk (w : World) (st : stream) (n : nat) : list byte :=
  transferred (next_fault (w_rfaults w)).1
    (take n (drop (s_pos st) (contents (w_fs w) (s_path st)))).

Definition after_read (h : handle) (st : stream) (n : nat) (w : World)
  : World :=
  log (EvRead h n)
    (set_rfaults (next_fault (w_rfaults w)).2
       (set_streams (<[h := advance n st]> (w_streams w)) w)).

Definition after_write (h : handle) (st : stream) (req : nat)
    (put : list byte) (w : World) : World :=
  log (EvWrite h req (length put))
    (set_wfaults (next_fault (w_wfaults w)).2
       (set_streams (<[h := advance (length put) st]> (w_streams w))
          (set_fs (store (s_path st) (s_pos st) put (w_fs w)) w))).

(** The loop invariant on two different files.  [fs0] is the file system
    the process started with, [orig] the source file in it, [fd0] the
    destination as the "wb" open left it, [s] and [d] the two streams;
    [r] bytes of the source have been read, [out] is what the destination
    holds. *)
Record copying (fs0 : gmap string file) (src dst : string) (s d : handle)
    (orig fd0 : file) (w : World) (r : nat) (out : list byte) : Prop := {
  cp_src : w_streams w !! s = Some (Stream src r);
  cp_dst : w_streams w !! d = Some (Stream dst (length out));
  cp_fs : w_fs w = <[dst := with_data out fd0]> fs0;
  cp_bound : r ≤ length (f_data orig);
  cp_len : length out ≤ r;
  cp_read : bytes_read (w_trace w) = r;
  cp_written : bytes_written (w_trace w) = length out;
  cp_prefix : full_writes (w_trace w) -> out = take r (f_data orig);
  cp_quiet : Forall (fun e => is_file_io e = true) (w_trace w)
}.

(** The events of [k] full rounds of the loop. *)
Definition full_rounds (s d : handle) (k : nat) : list event :=
  mjoin (replicate k [EvRead s buffer_size;
                      EvWrite d buffer_size buffer_size]).

(** A pass through the loop that runs the body, as a step between
    loop states (the world and the buffer). *)
Definition loop_step (s d : handle) (x y : World * list byte) : Prop :=
  loop_body s d x.2 x.1 = (Ret (Some y.2), y.1).

Definition success_msg (src dst : string) : string :=
  "Backup successful from " +:+ src +:+ " to " +:+ dst +:+ nl.

(** The world as the two successful opens leave it, from [boot]. *)
Definition opened (src dst : string) (e : Env) : World :=
  log (EvOpen dst wb (Some 1))
    (set_streams (<[1 := Stream dst 0]> (<[0 := Stream src 0]> ∅))
       (set_fs (<[dst := truncated (e_fs e) dst]> (e_fs e))
          (log (EvOpen src rb (Some 0))
             (set_streams (<[0 := Stream src 0]> ∅) (boot e))))).

(** What [backup_file] and [main] do once the loop is over. *)
Definition closed (src dst : string) (w : World) : World :=
  log (EvStdout (success_msg src dst))
    (log (EvClose 1)
       (set_streams (delete 1 (delete 0 (w_streams w)))
          (log (EvClose 0) w))).

(** No I/O failure: both opens succeed, and no [fread] or [fwrite] of the
    run is cut short. *)
Definition io_ok (e : Env) (src dst : string) : Prop :=
  open_error_rb (e_fs e) src = None /\
  open_error_wb (e_fs e) (e_create e) dst = None /\
  no_faults (e_rfaults e) /\
  no_faults (e_wfaults e).

(** The loop state one pass after [x] (or [x] itself with the world of
    the last read, when the loop ends there). *)
Definition next_state (s d : handle) (x : World * list byte)
  : World * list byte :=
  match loop_body s d x.2 x.1 with
  | (Ret (Some buffer'), w') => (w', buffer')
  | (_, w') => (w', x.2)
  end.

(** ** Sample worlds *)

Definition abc : list byte := [x61; x62; x63].

Definition env1 : Env :=
  mkEnv {[ "a" := File abc true true ]} (fun _ => None) [] [] [].

(** A world in which the first [fwrite] transfers nothing. *)
Definition env_short_write : Env :=
  mkEnv {[ "a" := File abc true true ]} (fun _ => None) [] [Some 0] [].

(** A world in which "a" can be read, "ro" cannot be written and nothing
    can be created. *)
Definition env_locked : Env :=
  mkEnv {[ "a" := File abc true true; "ro" := File [] true false ]}
        (fun _ => Some ENOENT) [] [] [].

(** A world in which the first [fread] fails before any byte arrives. *)
Definition env_read_error : Env :=
  mkEnv {[ "a" := File abc true true ]} (fun _ => None) [Some 0] [] [].

(** A world in which the destination "b" holds five bytes. *)
Definition env_longer_dest : Env :=
  mkEnv {[ "a" := File abc true true;
           "b" := File [x31; x32; x33; x34; x35] true true ]}
        (fun _ => None) [] [] [].

(** A world whose source "a" holds exactly one buffer of bytes. *)
Definition env_one_buffer : Env :=
  mkEnv {[ "a" := File (replicate 1024 x2a) true true ]}
        (fun _ => None) [] [] [].

(** A world whose source is one buffer of zero bytes followed by a byte
    01, and in which the first [fwrite] transfers nothing. *)
Definition env_gap : Env :=
  mkEnv {[ "a" := File (replicate 1024 x00 ++ [x01]) true true ]}
        (fun _ => None) [] [Some 0] [].

(** ** Definitions used by the further properties *)

(** The events of the rounds of the loop, as the code orders them: each
    read of [n] bytes, with [0 < n <= 1024], is followed at once by the
    write that asks for those [n] bytes and reports [m <= n] of them. *)
Fixpoint alternating (s d : handle) (tr : list event) : bool :=
  match tr with
  | [] => true
  | EvRead h n :: EvWrite h' req m :: rest =>
      bool_decide (h = s) && bool_decide (0 < n) &&
      bool_decide (n ≤ buffer_size) && bool_decide (h' = d) &&
      bool_decide (req = n) && bool_decide (m ≤ n) &&
      alternating s d rest
  | _ => false
  end.

(** The world with other bytes where [buffer] will be allocated. *)
Definition with_stack (k : list byte) (w : World) : World :=
  mkWorld (w_fs w) (w_create w) (w_streams w) (w_errno w) (w_rfaults w)
          (w_wfaults w) k (w_trace w).

Definition env_with_stack (k : list byte) (e : Env) : Env :=
  mkEnv (e_fs e) (e_create e) (e_rfaults e) (e_wfaults e) k.

(** No entry of a read schedule makes a read deliver nothing: reads may
    be short, but each delivers at least one byte when one is left. *)
Definition no_empty_reads (l : list (option nat)) : Prop :=
  Forall (fun o => o ≠ Some 0) l.

(** The process started again on the files a run left, with fresh
    schedules. *)
Definition restart (fs : gmap string file) (e : Env) : Env :=
  mkEnv fs (e_create e) [] [] (e_stack e).

(** A world in which the first read delivers one byte and the second
    two. *)
Definition env_short_reads : Env :=
  mkEnv {[ "a" := File abc true true ]} (fun _ => None)
        [Some 1; Some 2] [] [].

(** ** Basic facts *)

Lemma append_empty_r (s : string) : s +:+ "" = s.
Proof.
  induction s as [|c s IH]; [done|].
  change (String c (s +:+ "") = String c s). by rewrite IH.
Qed.

Lemma substring_of_mid (pre s post : string) :
  substring_of s (pre +:+ s +:+ post).
Proof. by exists pre, post. Qed.

Lemma append_assoc (a b c : string) : (a +:+ b) +:+ c = a +:+ b +:+ c.
Proof.
  induction a as [|x a IH]; [done|].
  change (String x ((a +:+ b) +:+ c) = String x (a +:+ b +:+ c)).
  by rewrite IH.
Qed.

Lemma open_error_rb_None fs path :
  open_error_rb fs path = None ->
  exists f, fs !! path = Some f /\ f_readable f = true.
Proof.
  unfold open_error_rb. destruct (fs !! path) as [f|]; [|done].
  destruct (f_readable f) eqn:E; [eauto | done].
Qed.

(** [backup_file] and [copy_loop] in terms of [open_both] and
    [loop_body]. *)
Lemma backup_file_eq fuel source destination w :
  backup_file fuel source destination w =
    (let* buffer := alloc_buffer in
     let* hs := open_both source destination in
     copy_loop fuel hs.1 hs.2 buffer >>
     fclose hs.1 >>
     fclose hs.2) w.
Proof.
  unfold backup_file, open_both, bind, alloc_buffer.
  destruct (fopen source rb w) as [[[srcFile|]| |] w1]; try reflexivity.
  destruct (fopen destination wb w1) as [[[destFile|]| |] w2];
    reflexivity.
Qed.

Lemma copy_loop_S fuel s d buffer w :
  copy_loop (S fuel) s d buffer w =
    match loop_body s d buffer w with
    | (Ret (Some buffer'), w') => copy_loop fuel s d buffer' w'
    | (Ret None, w') => (Ret tt, w')
    | (Exit c, w') => (Exit c, w')
    | (OutOfFuel, w') => (OutOfFuel, w')
    end.
Proof.
  cbn [copy_loop]. unfold loop_body, bind.
  destruct (fread buffer buffer_size s w) as [[[n buffer']| |] w1];
    try reflexivity.
  destruct (0 <? n); [|reflexivity].
  destruct (fwrite buffer' n d w1) as [[k| |] w2]; reflexivity.
Qed.

Lemma main_wrong_argc fuel argv w :
  length argv ≠ 3 ->
  main fuel argv w = (Ret EXIT_FAILURE, log (EvStderr (usage (arg argv 0))) w).
Proof.
  intros Hn. unfold main.
  destruct (Nat.eqb_spec (length argv) 3) as [E|E]; [done|].
  reflexivity.
Qed.

(** The three ways [open_both] can end. *)

Lemma open_both_source_fails src dst w e :
  open_error_rb (w_fs w) src = Some e ->
  open_both src dst w =
    (Exit EXIT_FAILURE,
     log (EvStderr (source_open_msg e))
       (log (EvOpen src rb None) (set_errno e w))).
Proof.
  intros H. unfold open_both, bind, fopen. rewrite H. reflexivity.
Qed.

Lemma open_both_dest_fails src dst w e :
  open_error_rb (w_fs w) src = None ->
  open_error_wb (w_fs w) (w_create w) dst = Some e ->
  let s := fresh (dom (w_streams w)) in
  open_both src dst w =
    (Exit EXIT_FAILURE,
     log (EvClose s)
       (set_streams (delete s (<[s := Stream src 0]> (w_streams w)))
          (log (EvStderr (dest_open_msg e))
             (log (EvOpen dst wb None)
                (set_errno e
                   (log (EvOpen src rb (Some s))
                      (set_streams (<[s := Stream src 0]> (w_streams w))
                         w))))))).
Proof.
  intros H1 H2 s. unfold open_both, bind, fopen. rewrite H1.
  unfold new_stream. cbn [w_fs w_create log set_streams]. rewrite H2.
  reflexivity.
Qed.

Lemma open_both_ok src dst w :
  open_error_rb (w_fs w) src = None ->
  open_error_wb (w_fs w) (w_create w) dst = None ->
  let s := fresh (dom (w_streams w)) in
  let d := fresh (dom (<[s := Stream src 0]> (w_streams w))) in
  open_both src dst w =
    (Ret (s, d),
     log (EvOpen dst wb (Some d))
       (set_streams
          (<[d := Stream dst 0]> (<[s := Stream src 0]> (w_streams w)))
          (set_fs (<[dst := truncated (w_fs w) dst]> (w_fs w))
             (log (EvOpen src rb (Some s))
                (set_streams (<[s := Stream src 0]> (w_streams w)) w))))).
Proof.
  intros H1 H2 s d. unfold open_both, bind, fopen. rewrite H1.
  unfold new_stream. cbn [w_fs w_create log set_streams]. rewrite H2.
  reflexivity.
Qed.

(** ** One pass through the loop *)

Lemma bytes_read_app tr1 tr2 :
  bytes_read (tr1 ++ tr2) = bytes_read tr1 + bytes_read tr2.
Proof.
  induction tr1 as [|e tr1 IH]; [done|].
  destruct e; simpl; rewrite IH; lia.
Qed.

Lemma bytes_written_app tr1 tr2 :
  bytes_written (tr1 ++ tr2) = bytes_written tr1 + bytes_written tr2.
Proof.
  induction tr1 as [|e tr1 IH]; [done|].
  destruct e; simpl; rewrite IH; lia.
Qed.

Lemma stdout_of_app tr1 tr2 :
  stdout_of (tr1 ++ tr2) = stdout_of tr1 +:+ stdout_of tr2.
Proof.
  induction tr1 as [|e tr1 IH]; [done|].
  destruct e; simpl; rewrite ?IH, ?append_assoc; done.
Qed.

Lemma stderr_of_app tr1 tr2 :
  stderr_of (tr1 ++ tr2) = stderr_of tr1 +:+ stderr_of tr2.
Proof.
  induction tr1 as [|e tr1 IH]; [done|].
  destruct e; simpl; rewrite ?IH, ?append_assoc; done.
Qed.

Lemma full_writes_app tr1 tr2 :
  full_writes (tr1 ++ tr2) <-> full_writes tr1 /\ full_writes tr2.
Proof. apply Forall_app. Qed.

Lemma full_writes_write h req n : full_writes [EvWrite h req n] <-> n = req.
Proof. unfold full_writes. by rewrite Forall_singleton. Qed.

Lemma transferred_length flt l : length (transferred flt l) ≤ length l.
Proof. destruct flt; simpl; [rewrite length_take; lia | done]. Qed.

Lemma transferred_prefix flt l : transferred flt l `prefix_of` l.
Proof. destruct flt; simpl; [apply prefix_take | done]. Qed.

Lemma no_faults_next l :
  no_faults l -> (next_fault l).1 = None /\ no_faults (next_fault l).2.
Proof.
  destruct l as [|x l]; simpl; [done|].
  intros H. by inversion H; subst.
Qed.

Lemma write_at_end out put : write_at (length out) put out = out ++ put.
Proof.
  unfold write_at. rewrite resize_all, drop_ge by lia.
  by rewrite app_nil_r.
Qed.

Lemma fread_eq buffer n h w st :
  w_streams w !! h = Some st ->
  let got := read_chunk w st n in
  fread buffer n h w =
    (Ret (length got, got ++ drop (length got) buffer),
     after_read h st (length got) w).
Proof.
  intros H got. unfold fread. rewrite H.
  subst got. unfold read_chunk, after_read.
  by destruct (next_fault (w_rfaults w)).
Qed.

Lemma fwrite_eq buffer n h w st :
  w_streams w !! h = Some st ->
  let put := transferred (next_fault (w_wfaults w)).1 (take n buffer) in
  fwrite buffer n h w =
    (Ret (length put), after_write h st (length (take n buffer)) put w).
Proof.
  intros H put. unfold fwrite. rewrite H.
  subst put. unfold after_write.
  by destruct (next_fault (w_wfaults w)).
Qed.

(** [loop_body] as an equation on worlds in which both streams are open. *)
Lemma loop_body_eq s d buffer w ss sd :
  s ≠ d ->
  w_streams w !! s = Some ss ->
  w_streams w !! d = Some sd ->
  let got := read_chunk w ss buffer_size in
  let w1 := after_read s ss (length got) w in
  loop_body s d buffer w =
    match got with
    | [] => (Ret None, w1)
    | _ :: _ =>
        (Ret (Some (got ++ drop (length got) buffer)),
         after_write d sd (length got)
           (transferred (next_fault (w_wfaults w)).1 got) w1)
    end.
Proof.
  intros Hsd Hs Hd got w1. unfold loop_body, bind.
  rewrite (fread_eq _ _ _ _ _ Hs). fold got. fold w1.
  destruct got as [|x got'] eqn:E; [done|].
  rewrite <- E.
  assert ((0 <? length got) = true) as ->.
  { apply Nat.ltb_lt. rewrite E. simpl. lia. }
  assert (w_streams w1 !! d = Some sd) as Hd1.
  { unfold w1, after_read. cbn [w_streams log set_rfaults set_streams].
    by rewrite lookup_insert_ne. }
  rewrite (fwrite_eq _ _ _ _ _ Hd1).
  rewrite take_app_length. unfold ret.
  reflexivity.
Qed.

Lemma buffer_size_pos : 0 < buffer_size.
Proof. unfold buffer_size. lia. Qed.

(** ** The loop on two different files *)

Section CopyLoop.
(** [fs0] is the file system the process started with, [orig] the
    source file in it, [fd0] the destination as the "wb" open left it;
    [s] and [d] are the two streams. *)
Variables (fs0 : gmap string file) (src dst : string) (s d : handle).
Variables (orig fd0 : file).
Hypothesis Hsd : s ≠ d.
Hypothesis Hpaths : src ≠ dst.
Hypothesis Horig : fs0 !! src = Some orig.

Local Abbreviation inv := (copying fs0 src dst s d orig fd0).

Lemma copying_chunk w r out :
  inv w r out ->
  read_chunk w (Stream src r) buffer_size =
    transferred (next_fault (w_rfaults w)).1
      (take buffer_size (drop r (f_data orig))).
Proof.
  intros I. unfold read_chunk, contents. cbn [s_pos s_path].
  rewrite (cp_fs _ _ _ _ _ _ _ _ _ _ I), lookup_insert_ne, Horig by done.
  reflexivity.
Qed.

Lemma chunk_bound flt r :
  r + length (transferred flt (take buffer_size (drop r (f_data orig))))
    ≤ Nat.max r (length (f_data orig)).
Proof.
  pose proof (transferred_length flt
                (take buffer_size (drop r (f_data orig)))) as H.
  rewrite length_take, length_drop in H. lia.
Qed.

Lemma chunk_is_next flt r :
  take r (f_data orig) ++
    transferred flt (take buffer_size (drop r (f_data orig))) =
  take (r + length (transferred flt
                      (take buffer_size (drop r (f_data orig)))))
       (f_data orig).
Proof.
  destruct (transferred_prefix flt
              (take buffer_size (drop r (f_data orig)))) as [k Hk].
  set (got := transferred flt _) in *.
  assert (got = take (length got) (drop r (f_data orig))) as Hg.
  { assert (take (length got) (take buffer_size (drop r (f_data orig)))
            = got) as H1.
    { rewrite Hk. by rewrite take_app_length. }
    rewrite <- H1 at 1. rewrite take_take.
    f_equal. pose proof (f_equal length Hk) as HL.
    rewrite length_app, length_take in HL. lia. }
  rewrite Hg at 1. rewrite <- take_take_drop. done.
Qed.

(** The end of the loop: the read delivered nothing. *)
Lemma loop_body_stop buffer w r out :
  inv w r out ->
  read_chunk w (Stream src r) buffer_size = [] ->
  let w' := after_read s (Stream src r) 0 w in
  loop_body s d buffer w = (Ret None, w') /\ inv w' r out.
Proof.
  intros I Hg w'.
  rewrite (loop_body_eq s d buffer w _ _ Hsd (cp_src _ _ _ _ _ _ _ _ _ _ I)
             (cp_dst _ _ _ _ _ _ _ _ _ _ I)).
  rewrite Hg. split; [done|].
  destruct I as [I1 I2 I3 I4 I5 I6 I7 I8 I9].
  unfold w', after_read, advance.
  split; cbn [w_streams w_fs w_trace log set_rfaults set_streams
              s_path s_pos].
  - rewrite lookup_insert_eq. f_equal. f_equal. lia.
  - by rewrite lookup_insert_ne.
  - done.
  - done.
  - done.
  - rewrite bytes_read_app. simpl. lia.
  - rewrite bytes_written_app. simpl. lia.
  - intros [Hf _]%full_writes_app. auto.
  - apply Forall_app. split; [done | by repeat constructor].
Qed.

(** One more round: a chunk is read and (some of) it is written. *)
Lemma loop_body_round buffer w r out :
  inv w r out ->
  let got := read_chunk w (Stream src r) buffer_size in
  let put := transferred (next_fault (w_wfaults w)).1 got in
  let w' := after_write d (Stream dst (length out)) (length got) put
              (after_read s (Stream src r) (length got) w) in
  got ≠ [] ->
  loop_body s d buffer w =
    (Ret (Some (got ++ drop (length got) buffer)), w') /\
  inv w' (r + length got) (out ++ put).
Proof.
  intros I got put w' Hg.
  rewrite (loop_body_eq s d buffer w _ _ Hsd (cp_src _ _ _ _ _ _ _ _ _ _ I)
             (cp_dst _ _ _ _ _ _ _ _ _ _ I)).
  fold got.
  assert (forall (A : Type) (a b : A),
            match got with [] => a | _ :: _ => b end = b) as ->.
  { intros A a b. revert Hg. generalize got. by intros [|? ?] ?. }
  split; [done|].
  pose proof (copying_chunk _ _ _ I) as Hc. fold got in Hc.
  pose proof (chunk_bound (next_fault (w_rfaults w)).1 r) as Hb.
  rewrite <- Hc in Hb.
  pose proof (transferred_length (next_fault (w_wfaults w)).1 got) as Hp.
  fold put in Hp.
  destruct I as [I1 I2 I3 I4 I5 I6 I7 I8 I9].
  unfold w', after_write, after_read, advance.
  split; cbn [w_streams w_fs w_trace log set_rfaults set_wfaults
              set_streams set_fs s_path s_pos].
  - by rewrite lookup_insert_ne, lookup_insert_eq.
  - rewrite lookup_insert_eq, length_app. done.
  - unfold store. rewrite I3, lookup_insert_eq.
    cbn [f_data with_data]. rewrite write_at_end, insert_insert_eq.
    done.
  - lia.
  - rewrite length_app. lia.
  - rewrite !bytes_read_app. simpl. lia.
  - rewrite !bytes_written_app, length_app. simpl. lia.
  - intros [[Hf _]%full_writes_app Hw%full_writes_write]%full_writes_app.
    assert (put = got) as ->.
    { destruct (transferred_prefix (next_fault (w_wfaults w)).1 got)
        as [k Hk]. fold put in Hk.
      pose proof (f_equal length Hk) as HL. rewrite length_app in HL.
      destruct k; [by rewrite app_nil_r in Hk | simpl in HL; lia]. }
    rewrite (I8 Hf), Hc. apply chunk_is_next.
  - rewrite !Forall_app. split; [split|]; [done | ..];
      by repeat constructor.
Qed.

Lemma chunk_empty_no_fault r :
  take buffer_size (drop r (f_data orig)) = [] ->
  length (f_data orig) ≤ r.
Proof.
  intros H. apply (f_equal length) in H.
  rewrite length_take, length_drop in H. cbn [length] in H.
  pose proof buffer_size_pos. lia.
Qed.

(** The loop runs to its end on any fuel above the number of bytes
    left, whatever the fault schedules are, and keeps the invariant. *)
Lemma copy_loop_runs fuel : forall buffer w r out,
  inv w r out ->
  length (f_data orig) - r < fuel ->
  exists w' r' out',
    copy_loop fuel s d buffer w = (Ret tt, w') /\
    inv w' r' out' /\
    (no_faults (w_rfaults w) -> r' = length (f_data orig)) /\
    (no_faults (w_wfaults w) -> full_writes (w_trace w) ->
     full_writes (w_trace w')) /\
    (exists tr, w_trace w' = w_trace w ++ tr ++ [EvRead s 0]).
Proof.
  induction fuel as [|fuel IH]; intros buffer w r out I Hfuel; [lia|].
  pose proof (copying_chunk _ _ _ I) as Hc.
  destruct (read_chunk w (Stream src r) buffer_size) as [|x got'] eqn:E.
  - destruct (loop_body_stop buffer w r out I E) as [Hrun I'].
    eexists _, r, out. split; [|split; [exact I'|]].
    { rewrite copy_loop_S, Hrun. reflexivity. }
    split; [|split].
    + intros [Hn _]%no_faults_next. rewrite Hn in Hc. simpl in Hc.
      symmetry in Hc. apply chunk_empty_no_fault in Hc.
      pose proof (cp_bound _ _ _ _ _ _ _ _ _ _ I). lia.
    + intros _ Hf. unfold after_read. cbn [w_trace log set_rfaults
        set_streams]. apply full_writes_app. split; [done|].
      by repeat constructor.
    + exists []. reflexivity.
  - assert (read_chunk w (Stream src r) buffer_size ≠ []) as Hne
      by (rewrite E; done).
    destruct (loop_body_round buffer w r out I Hne) as [Hrun I'].
    rewrite E in Hrun, I'. set (got := x :: got') in *.
    pose proof (chunk_bound (next_fault (w_rfaults w)).1 r) as Hb.
    rewrite <- Hc in Hb. pose proof (cp_bound _ _ _ _ _ _ _ _ _ _ I) as Hr.
    assert (0 < length got) as Hpos by (unfold got; simpl; lia).
    edestruct (IH (got ++ drop (length got) buffer) _ _ _ I')
      as (w' & r' & out' & Hloop & I'' & Hrf & Hwf & tr & Htr); [lia|].
    exists w', r', out'. split; [|split; [exact I''|]].
    { rewrite copy_loop_S, Hrun. exact Hloop. }
    split; [|split].
    + intros [_ Hn]%no_faults_next. apply Hrf. exact Hn.
    + intros [Hn1 Hn2]%no_faults_next Hf. apply Hwf; [exact Hn2|].
      unfold after_write, after_read.
      cbn [w_trace log set_rfaults set_wfaults set_streams set_fs].
      rewrite Hn1. cbn [transferred].
      apply full_writes_app. split;
        [apply full_writes_app; split; [done | by repeat constructor]|].
      by apply full_writes_write.
    + rewrite Htr. unfold after_write, after_read.
      cbn [w_trace log set_rfaults set_wfaults set_streams set_fs].
      eexists (_ :: _ :: tr). rewrite <- !app_assoc. reflexivity.
Qed.

(** Without faults, on a source whose remaining length is [k] buffers,
    the loop makes exactly [k] rounds and then one read of nothing. *)
Lemma copy_loop_aligned k : forall fuel buffer w r out,
  inv w r out ->
  no_faults (w_rfaults w) ->
  no_faults (w_wfaults w) ->
  length (f_data orig) = r + k * buffer_size ->
  k < fuel ->
  exists w',
    copy_loop fuel s d buffer w = (Ret tt, w') /\
    w_trace w' = w_trace w ++ full_rounds s d k ++ [EvRead s 0].
Proof.
  induction k as [|k IH]; intros fuel buffer w r out I Hr Hw Hlen Hfuel;
    (destruct fuel as [|fuel]; [lia|]);
    pose proof (copying_chunk _ _ _ I) as Hc;
    destruct (no_faults_next _ Hr) as [Hr1 Hr2];
    destruct (no_faults_next _ Hw) as [Hw1 Hw2];
    rewrite Hr1 in Hc; cbn [transferred] in Hc.
  - rewrite drop_ge, take_nil in Hc by lia.
    destruct (loop_body_stop buffer w r out I Hc) as [Hrun _].
    eexists. split.
    { rewrite copy_loop_S, Hrun. reflexivity. }
    reflexivity.
  - assert (length (read_chunk w (Stream src r) buffer_size)
            = buffer_size) as HL.
    { rewrite Hc, length_take, length_drop. lia. }
    assert (read_chunk w (Stream src r) buffer_size ≠ []) as Hne.
    { intros E. rewrite E in HL. pose proof buffer_size_pos.
      cbn [length] in HL. lia. }
    destruct (loop_body_round buffer w r out I Hne) as [Hrun I'].
    rewrite Hw1 in Hrun, I'. cbn [transferred] in Hrun, I'.
    rewrite HL in Hrun, I'.
    edestruct (IH fuel (read_chunk w (Stream src r) buffer_size ++
                        drop buffer_size buffer) _ _ _ I')
      as (w' & Hloop & Htr);
      [exact Hr2 | exact Hw2 | lia | lia |].
    exists w'. split.
    { rewrite copy_loop_S, Hrun. exact Hloop. }
    rewrite Htr. unfold after_write, after_read.
    cbn [w_trace log set_rfaults set_wfaults set_streams set_fs].
    rewrite HL. unfold full_rounds. cbn [replicate mjoin list_join].
    rewrite <- !app_assoc. reflexivity.
Qed.

Lemma copying_step x y r out :
  inv x.1 r out ->
  loop_step s d x y ->
  exists r' out', inv y.1 r' out'.
Proof.
  intros I Hstep. unfold loop_step in Hstep.
  destruct (read_chunk x.1 (Stream src r) buffer_size) as [|b got'] eqn:E.
  - destruct (loop_body_stop x.2 x.1 r out I E) as [Hrun _].
    rewrite Hrun in Hstep. discriminate.
  - assert (read_chunk x.1 (Stream src r) buffer_size ≠ []) as Hne
      by (rewrite E; done).
    destruct (loop_body_round x.2 x.1 r out I Hne) as [Hrun I'].
    rewrite Hrun in Hstep. injection Hstep as _ Hw. rewrite <- Hw.
    eauto.
Qed.

Lemma copying_reachable x y :
  rtc (loop_step s d) x y ->
  forall r out, inv x.1 r out ->
  exists r' out', inv y.1 r' out'.
Proof.
  induction 1 as [x | x y z Hxy _ IH]; intros r out I; [eauto|].
  destruct (copying_step x y r out I Hxy) as (r' & out' & I').
  eauto.
Qed.

End CopyLoop.

(** The loop visits only states related by [loop_step], and ends at the
    first pass whose read returns nothing. *)
Lemma copy_loop_path fuel : forall s d buffer w w',
  copy_loop fuel s d buffer w = (Ret tt, w') ->
  exists x,
    rtc (loop_step s d) (w, buffer) x /\
    loop_body s d x.2 x.1 = (Ret None, w').
Proof.
  induction fuel as [|fuel IH]; intros s d buffer w w' H; [done|].
  rewrite copy_loop_S in H.
  destruct (loop_body s d buffer w) as [[[buffer'|]| |] w1] eqn:E;
    [| |done..].
  - apply IH in H as (x & Hreach & Hstop). exists x. split; [|exact Hstop].
    eapply rtc_l; [|exact Hreach]. exact E.
  - injection H as <-. exists (w, buffer). by split.
Qed.

(** ** The loop when source and destination are one file *)

Lemma loop_body_empty_source s d buffer w ss sd :
  s ≠ d ->
  w_streams w !! s = Some ss ->
  w_streams w !! d = Some sd ->
  contents (w_fs w) (s_path ss) = [] ->
  loop_body s d buffer w = (Ret None, after_read s ss 0 w).
Proof.
  intros Hsd Hs Hd Hc.
  rewrite (loop_body_eq s d buffer w ss sd Hsd Hs Hd).
  assert (read_chunk w ss buffer_size = []) as ->; [|done].
  unfold read_chunk. rewrite Hc, drop_nil, take_nil.
  destruct (next_fault (w_rfaults w)).1; [apply take_nil | done].
Qed.

(** ** The whole program *)

Lemma boot_first_handle e : fresh (dom (w_streams (boot e))) = 0.
Proof. reflexivity. Qed.

Lemma boot_second_handle e (st : stream) :
  fresh (dom (<[0 := st]> (w_streams (boot e)))) = 1.
Proof. reflexivity. Qed.

Lemma open_both_boot src dst e :
  open_error_rb (e_fs e) src = None ->
  open_error_wb (e_fs e) (e_create e) dst = None ->
  open_both src dst (boot e) = (Ret (0, 1), opened src dst e).
Proof.
  intros H1 H2.
  rewrite (open_both_ok src dst (boot e) H1 H2).
  rewrite boot_first_handle, boot_second_handle. reflexivity.
Qed.

Lemma open_both_boot_inv src dst e s d w :
  open_both src dst (boot e) = (Ret (s, d), w) ->
  open_error_rb (e_fs e) src = None /\
  open_error_wb (e_fs e) (e_create e) dst = None /\
  s = 0 /\ d = 1 /\ w = opened src dst e.
Proof.
  intros H.
  destruct (open_error_rb (e_fs e) src) as [err|] eqn:H1.
  { by rewrite (open_both_source_fails src dst (boot e) err H1) in H. }
  destruct (open_error_wb (e_fs e) (e_create e) dst) as [err|] eqn:H2.
  { by rewrite (open_both_dest_fails src dst (boot e) err H1 H2) in H. }
  rewrite (open_both_boot src dst e H1 H2) in H.
  by injection H as <- <- <-.
Qed.

Lemma main_three fuel prog src dst w :
  main fuel [prog; src; dst] w =
    (backup_file fuel src dst >>
     print_stdout (success_msg src dst) >>
     ret EXIT_SUCCESS) w.
Proof. reflexivity. Qed.

Lemma run_after_loop fuel prog src dst e w :
  open_error_rb (e_fs e) src = None ->
  open_error_wb (e_fs e) (e_create e) dst = None ->
  copy_loop fuel 0 1 (resize buffer_size x00 (e_stack e))
    (opened src dst e) = (Ret tt, w) ->
  run fuel [prog; src; dst] e = (Some EXIT_SUCCESS, closed src dst w).
Proof.
  intros H1 H2 Hloop. unfold run. rewrite main_three.
  unfold bind at 1 2. rewrite backup_file_eq. unfold bind, alloc_buffer.
  rewrite (open_both_boot src dst e H1 H2).
  cbn [fst snd]. change (w_stack (boot e)) with (e_stack e). rewrite Hloop.
  reflexivity.
Qed.

Lemma truncated_empty fs path :
  with_data [] (truncated fs path) = truncated fs path.
Proof. unfold truncated. by destruct (fs !! path). Qed.

Lemma copying_at_entry src dst e orig :
  src ≠ dst ->
  e_fs e !! src = Some orig ->
  copying (e_fs e) src dst 0 1 orig (truncated (e_fs e) dst)
          (opened src dst e) 0 [].
Proof.
  intros Hne Horig. unfold opened.
  split; cbn [w_streams w_fs w_trace log set_streams set_fs boot length].
  - by rewrite lookup_insert_ne, lookup_insert_eq.
  - by rewrite lookup_insert_eq.
  - by rewrite truncated_empty.
  - lia.
  - lia.
  - reflexivity.
  - reflexivity.
  - intros _. by rewrite take_0.
  - by repeat constructor.
Qed.

Lemma quiet_stdout tr :
  Forall (fun e => is_file_io e = true) tr -> stdout_of tr = "".
Proof.
  induction 1 as [|e tr He _ IH]; [done|].
  destruct e; simpl in *; done.
Qed.

Lemma quiet_stderr tr :
  Forall (fun e => is_file_io e = true) tr -> stderr_of tr = "".
Proof.
  induction 1 as [|e tr He _ IH]; [done|].
  destruct e; simpl in *; done.
Qed.

(** The run on two different paths that both open: it ends with status
    0 from a world [w] in which the loop invariant holds. *)
Lemma run_distinct fuel prog src dst e orig :
  src ≠ dst ->
  e_fs e !! src = Some orig ->
  open_error_rb (e_fs e) src = None ->
  open_error_wb (e_fs e) (e_create e) dst = None ->
  length (f_data orig) < fuel ->
  exists w r out,
    run fuel [prog; src; dst] e = (Some EXIT_SUCCESS, closed src dst w) /\
    copying (e_fs e) src dst 0 1 orig (truncated (e_fs e) dst) w r out /\
    (no_faults (e_rfaults e) -> r = length (f_data orig)) /\
    (no_faults (e_wfaults e) -> full_writes (w_trace w)) /\
    (exists tr, w_trace w = w_trace (opened src dst e) ++ tr ++ [EvRead 0 0]).
Proof.
  intros Hne Horig H1 H2 Hfuel.
  pose proof (copying_at_entry src dst e orig Hne Horig) as I.
  destruct (copy_loop_runs (e_fs e) src dst 0 1 orig (truncated (e_fs e) dst)
              ltac:(done) Hne Horig fuel
              (resize buffer_size x00 (e_stack e)) _ _ _ I)
    as (w & r & out & Hloop & I' & Hr & Hw & Htr); [lia|].
  exists w, r, out. split; [by apply run_after_loop|].
  split; [exact I'|]. split; [exact Hr|]. split; [|exact Htr].
  intros Hn. apply Hw; [exact Hn|]. unfold opened.
  cbn [w_trace log set_streams set_fs boot]. by repeat constructor.
Qed.

(** The run when both arguments are one path: the "wb" open empties the
    file before the first read. *)
Lemma run_same_path fuel prog path e :
  open_error_rb (e_fs e) path = None ->
  open_error_wb (e_fs e) (e_create e) path = None ->
  0 < fuel ->
  run fuel [prog; path; path] e =
    (Some EXIT_SUCCESS,
     closed path path (after_read 0 (Stream path 0) 0 (opened path path e))).
Proof.
  intros H1 H2 Hfuel. apply run_after_loop; [done..|].
  destruct fuel as [|fuel]; [lia|].
  rewrite copy_loop_S.
  rewrite (loop_body_empty_source 0 1 _ (opened path path e)
             (Stream path 0) (Stream path 0)); [done|done|..].
  - unfold opened. cbn [w_streams log set_streams set_fs].
    by rewrite lookup_insert_ne, lookup_insert_eq.
  - unfold opened. cbn [w_streams log set_streams set_fs].
    by rewrite lookup_insert_eq.
  - unfold opened, contents. cbn [w_fs log set_streams set_fs s_path].
    rewrite lookup_insert_eq. unfold truncated.
    by destruct (e_fs e !! path).
Qed.

Lemma closed_trace src dst w :
  w_trace (closed src dst w) =
    w_trace w ++ [EvClose 0; EvClose 1; EvStdout (success_msg src dst)].
Proof.
  unfold closed. cbn [w_trace log set_streams].
  by rewrite <- !app_assoc.
Qed.

Lemma closed_fs src dst w : w_fs (closed src dst w) = w_fs w.
Proof. reflexivity. Qed.

Lemma closed_stdout src dst w :
  Forall (fun e => is_file_io e = true) (w_trace w) ->
  stdout_of (w_trace (closed src dst w)) = success_msg src dst /\
  stderr_of (w_trace (closed src dst w)) = "".
Proof.
  intros Hq. rewrite closed_trace, stdout_of_app, stderr_of_app.
  rewrite (quiet_stdout _ Hq), (quiet_stderr _ Hq). split; [|done].
  simpl. apply append_empty_r.
Qed.

Lemma closed_counts src dst w :
  bytes_read (w_trace (closed src dst w)) = bytes_read (w_trace w) /\
  bytes_written (w_trace (closed src dst w)) = bytes_written (w_trace w) /\
  (full_writes (w_trace (closed src dst w)) <-> full_writes (w_trace w)).
Proof.
  rewrite closed_trace, bytes_read_app, bytes_written_app, full_writes_app.
  simpl. split; [lia|]. split; [lia|]. split; [tauto|].
  intros H. split; [done|]. by repeat constructor.
Qed.

Lemma copying_contents fs0 src dst s d orig fd0 w r out :
  src ≠ dst ->
  fs0 !! src = Some orig ->
  copying fs0 src dst s d orig fd0 w r out ->
  contents (w_fs w) dst = out /\ contents (w_fs w) src = f_data orig.
Proof.
  intros Hne Horig I. unfold contents. rewrite (cp_fs _ _ _ _ _ _ _ _ _ _ I).
  rewrite lookup_insert_eq, lookup_insert_ne, Horig by done. done.
Qed.

(** The copy of one file onto another when nothing fails. *)
Lemma run_io_ok fuel prog src dst e :
  src ≠ dst ->
  io_ok e src dst ->
  length (contents (e_fs e) src) < fuel ->
  exists w,
    run fuel [prog; src; dst] e = (Some EXIT_SUCCESS, w) /\
    w_fs w = <[dst := with_data (contents (e_fs e) src)
                        (truncated (e_fs e) dst)]> (e_fs e).
Proof.
  intros Hne (H1 & H2 & Hr & Hw) Hfuel.
  destruct (open_error_rb_None _ _ H1) as (orig & Horig & _).
  unfold contents in *. rewrite Horig in *. cbn [from_option] in *.
  destruct (run_distinct fuel prog src dst e orig Hne Horig H1 H2 Hfuel)
    as (w & r & out & Hrun & I & Hr' & Hw' & _).
  exists (closed src dst w). split; [exact Hrun|].
  rewrite closed_fs, (cp_fs _ _ _ _ _ _ _ _ _ _ I).
  rewrite (cp_prefix _ _ _ _ _ _ _ _ _ _ I (Hw' Hw)), (Hr' Hr).
  by rewrite firstn_all.
Qed.

(** ** Concrete runs *)

(** A source of two buffers and a half is copied in three rounds. *)
Example run_2560_bytes :
  let e := mkEnv {[ "in" := File (replicate 2560 x55) true true ]}
                 (fun _ => None) [] [] [] in
  let '(status, w) := run 4 ["backup"; "in"; "out"] e in
  status = Some 0%Z /\
  contents (w_fs w) "out" = replicate 2560 x55 /\
  w_trace w = [EvOpen "in" rb (Some 0); EvOpen "out" wb (Some 1);
               EvRead 0 1024; EvWrite 1 1024 1024;
               EvRead 0 1024; EvWrite 1 1024 1024;
               EvRead 0 512; EvWrite 1 512 512;
               EvRead 0 0; EvClose 0; EvClose 1;
               EvStdout (success_msg "in" "out")].
Proof. vm_compute. repeat split; reflexivity. Qed.

(** With too little fuel the model reports that, not a result. *)
Example run_out_of_fuel :
  (run 1 ["backup"; "a"; "b"] env1).1 = None.
Proof. reflexivity. Qed.

(** The empty file is copied by a single read of nothing. *)
Example run_empty_file :
  let e := mkEnv {[ "in" := File [] true true ]} (fun _ => None) [] [] [] in
  let '(status, w) := run 1 ["backup"; "in"; "out"] e in
  status = Some 0%Z /\
  w_fs w !! "out" = Some (File [] true true) /\
  w_trace w = [EvOpen "in" rb (Some 0); EvOpen "out" wb (Some 1);
               EvRead 0 0; EvClose 0; EvClose 1;
               EvStdout (success_msg "in" "out")].
Proof. vm_compute. repeat split; reflexivity. Qed.

(** * The claims *)

(** ** C1: round-trip fidelity *)

(** C1, as amended.  When source and destination are different files and
    no I/O fails (both opens succeed, no read and no write is cut short),
    the run ends with status 0, the destination holds exactly the bytes
    the source held, so its size is the N of the source, and the source
    is as it was.  This holds for every N, the empty file and files
    larger than the buffer included. *)
Theorem roundtrip_distinct_files fuel prog src dst e :
  src ≠ dst ->
  io_ok e src dst ->
  length (contents (e_fs e) src) < fuel ->
  exists w,
    run fuel [prog; src; dst] e = (Some EXIT_SUCCESS, w) /\
    contents (w_fs w) dst = contents (e_fs e) src /\
    length (contents (w_fs w) dst) = length (contents (e_fs e) src) /\
    contents (w_fs w) src = contents (e_fs e) src.
Proof.
  intros Hne Hok Hfuel.
  destruct (run_io_ok fuel prog src dst e Hne Hok Hfuel) as (w & Hrun & Hfs).
  exists w. split; [exact Hrun|].
  assert (contents (w_fs w) dst = contents (e_fs e) src) as Hd.
  { unfold contents at 1. by rewrite Hfs, lookup_insert_eq. }
  split; [exact Hd|]. split; [by rewrite Hd|].
  unfold contents. by rewrite Hfs, lookup_insert_ne.
Qed.

Lemma roundtrip_distinct_files_witness :
  exists w,
    run 4 ["backup"; "a"; "b"] env1 = (Some EXIT_SUCCESS, w) /\
    contents (w_fs w) "b" = contents (e_fs env1) "a" /\
    length (contents (w_fs w) "b") = length (contents (e_fs env1) "a") /\
    contents (w_fs w) "a" = contents (e_fs env1) "a".
Proof.
  apply (roundtrip_distinct_files 4 "backup" "a" "b" env1).
  - discriminate.
  - repeat split; constructor.
  - vm_compute. lia.
Defined.

(** C1 as stated fails when both arguments name one file: nothing fails,
    the run ends with status 0, and the 3-byte source is left empty. *)
Lemma roundtrip_same_file_counterexample :
  io_ok env1 "a" "a" /\
  length (contents (e_fs env1) "a") = 3 /\
  exists w,
    run 4 ["backup"; "a"; "a"] env1 = (Some EXIT_SUCCESS, w) /\
    contents (w_fs w) "a" = [] /\
    contents (w_fs w) "a" ≠ contents (e_fs env1) "a" /\
    length (contents (w_fs w) "a") ≠ 3.
Proof.
  split; [repeat split; constructor|]. split; [reflexivity|].
  eexists. split; [vm_compute; reflexivity|].
  split; [reflexivity|]. split; [discriminate|].
  vm_compute. lia.
Qed.

(** ** C2: bytes written against bytes read *)

(** What every run in which both files open comes to: status 0, and a
    trace whose writes never exceed its reads. *)
Lemma run_opened fuel prog src dst e :
  open_error_rb (e_fs e) src = None ->
  open_error_wb (e_fs e) (e_create e) dst = None ->
  length (contents (e_fs e) src) < fuel ->
  exists w,
    run fuel [prog; src; dst] e = (Some EXIT_SUCCESS, closed src dst w) /\
    Forall (fun ev => is_file_io ev = true) (w_trace w) /\
    bytes_written (w_trace w) ≤ bytes_read (w_trace w) /\
    (full_writes (w_trace w) ->
     bytes_written (w_trace w) = bytes_read (w_trace w)) /\
    (no_faults (e_wfaults e) -> full_writes (w_trace w)).
Proof.
  intros H1 H2 Hfuel.
  destruct (decide (src = dst)) as [<-|Hne].
  - eexists. split; [apply run_same_path; [done|done|lia]|].
    split; [by repeat constructor|]. split; [simpl; lia|].
    split; [done|]. intros _. by repeat constructor.
  - destruct (open_error_rb_None _ _ H1) as (orig & Horig & _).
    unfold contents in Hfuel. rewrite Horig in Hfuel.
    cbn [from_option] in Hfuel.
    destruct (run_distinct fuel prog src dst e orig Hne Horig H1 H2 Hfuel)
      as (w & r & out & Hrun & I & _ & Hw' & _).
    exists w. split; [exact Hrun|].
    destruct I as [_ _ _ Hb Hl Hrd Hwr Hpre Hq].
    split; [exact Hq|]. split; [lia|]. split; [|exact Hw'].
    intros Hf. rewrite Hwr, Hrd, (Hpre Hf), length_take. lia.
Qed.

(** C2, as amended.  Whenever both files open, the loop ends and the run
    finishes with status 0, whatever the writes did: the result of
    [fwrite] is not looked at.  By then the bytes written never exceed
    the bytes read, and they equal them provided no write transferred
    fewer bytes than requested (which is the case when the write schedule
    has no fault). *)
Theorem written_equals_read_if_writes_full fuel prog src dst e :
  open_error_rb (e_fs e) src = None ->
  open_error_wb (e_fs e) (e_create e) dst = None ->
  length (contents (e_fs e) src) < fuel ->
  exists w,
    run fuel [prog; src; dst] e = (Some EXIT_SUCCESS, w) /\
    bytes_written (w_trace w) ≤ bytes_read (w_trace w) /\
    (full_writes (w_trace w) ->
     bytes_written (w_trace w) = bytes_read (w_trace w)) /\
    (no_faults (e_wfaults e) -> full_writes (w_trace w)).
Proof.
  intros H1 H2 Hfuel.
  destruct (run_opened fuel prog src dst e H1 H2 Hfuel)
    as (w & Hrun & _ & Hle & Heq & Hnf).
  exists (closed src dst w). split; [exact Hrun|].
  destruct (closed_counts src dst w) as (-> & -> & Hiff).
  split; [exact Hle|]. split.
  - intros Hf. apply Heq, Hiff, Hf.
  - intros Hn. apply Hiff, Hnf, Hn.
Qed.

Lemma written_equals_read_if_writes_full_witness :
  exists w,
    run 4 ["backup"; "a"; "b"] env1 = (Some EXIT_SUCCESS, w) /\
    bytes_written (w_trace w) ≤ bytes_read (w_trace w) /\
    (full_writes (w_trace w) ->
     bytes_written (w_trace w) = bytes_read (w_trace w)) /\
    (no_faults (e_wfaults env1) -> full_writes (w_trace w)).
Proof.
  apply (written_equals_read_if_writes_full 4 "backup" "a" "b" env1).
  - reflexivity.
  - reflexivity.
  - vm_compute. lia.
Defined.

(** C2 as stated fails: the first write transfers 0 of the 3 bytes
    requested, the loop ends with 3 bytes read and 0 written, and the
    run still ends with status 0, the success message, and nothing on
    standard error. *)
Lemma short_write_counterexample :
  exists w,
    run 4 ["backup"; "a"; "b"] env_short_write = (Some EXIT_SUCCESS, w) /\
    w_trace w = [EvOpen "a" rb (Some 0); EvOpen "b" wb (Some 1);
                 EvRead 0 3; EvWrite 1 3 0; EvRead 0 0;
                 EvClose 0; EvClose 1;
                 EvStdout (success_msg "a" "b")] /\
    bytes_read (w_trace w) = 3 /\
    bytes_written (w_trace w) = 0 /\
    bytes_written (w_trace w) ≠ bytes_read (w_trace w) /\
    stderr_of (w_trace w) = "" /\
    contents (w_fs w) "b" = [].
Proof.
  eexists. split; [vm_compute; reflexivity|].
  repeat split; try reflexivity. vm_compute. lia.
Qed.

(** ** C3: which failures are reported *)

(** C3, as amended.  A failure to open the source or the destination
    ends the process with status [EXIT_FAILURE] and, on standard error,
    the name of the phase followed by the text of the system error;
    nothing is printed on standard output.  When both files open the run
    ends with status [EXIT_SUCCESS] and the success message; whether
    reads or writes failed inside the loop plays no part. *)
Theorem open_failures_reported fuel prog src dst e :
  length (contents (e_fs e) src) < fuel ->
  exists status w,
    run fuel [prog; src; dst] e = (Some status, w) /\
    match open_error_rb (e_fs e) src with
    | Some err =>
        status = EXIT_FAILURE /\
        stderr_of (w_trace w) =
          "Failed to open source file: " +:+ strerror err +:+ nl /\
        stdout_of (w_trace w) = ""
    | None =>
        match open_error_wb (e_fs e) (e_create e) dst with
        | Some err =>
            status = EXIT_FAILURE /\
            stderr_of (w_trace w) =
              "Failed to open destination file: " +:+ strerror err +:+ nl /\
            stdout_of (w_trace w) = ""
        | None =>
            status = EXIT_SUCCESS /\
            stdout_of (w_trace w) = success_msg src dst /\
            stderr_of (w_trace w) = ""
        end
    end.
Proof.
  intros Hfuel.
  destruct (open_error_rb (e_fs e) src) as [err|] eqn:H1.
  { eexists _, _. split.
    - unfold run. rewrite main_three. unfold bind at 1 2.
      rewrite backup_file_eq. unfold bind, alloc_buffer.
      rewrite (open_both_source_fails src dst (boot e) err H1). reflexivity.
    - split; [done|]. split; [|done].
      cbn [w_trace log set_errno boot app stderr_of foldr].
      by rewrite append_empty_r. }
  destruct (open_error_wb (e_fs e) (e_create e) dst) as [err|] eqn:H2.
  { eexists _, _. split.
    - unfold run. rewrite main_three. unfold bind at 1 2.
      rewrite backup_file_eq. unfold bind, alloc_buffer.
      rewrite (open_both_dest_fails src dst (boot e) err H1 H2). reflexivity.
    - split; [done|]. split; [|done].
      cbn [w_trace log set_errno set_streams boot app stderr_of foldr].
      by rewrite append_empty_r. }
  destruct (run_opened fuel prog src dst e H1 H2 Hfuel)
    as (w & Hrun & Hq & _).
  exists EXIT_SUCCESS, (closed src dst w). split; [exact Hrun|].
  split; [done|]. by apply closed_stdout.
Qed.

Lemma open_failures_reported_witness :
  (exists status w,
     run 4 ["backup"; "a"; "b"] env1 = (Some status, w) /\
     status = EXIT_SUCCESS /\
     stdout_of (w_trace w) = success_msg "a" "b" /\
     stderr_of (w_trace w) = "") /\
  (exists status w,
     run 4 ["backup"; "missing"; "b"] env1 = (Some status, w) /\
     status = EXIT_FAILURE /\
     stderr_of (w_trace w) =
       "Failed to open source file: No such file or directory" +:+ nl /\
     stdout_of (w_trace w) = "") /\
  (exists status w,
     run 4 ["backup"; "a"; "ro"] env_locked = (Some status, w) /\
     status = EXIT_FAILURE /\
     stderr_of (w_trace w) =
       "Failed to open destination file: Permission denied" +:+ nl /\
     stdout_of (w_trace w) = "").
Proof.
  split; [|split].
  - apply (open_failures_reported 4 "backup" "a" "b" env1).
    vm_compute. lia.
  - apply (open_failures_reported 4 "backup" "missing" "b" env1).
    vm_compute. lia.
  - apply (open_failures_reported 4 "backup" "a" "ro" env_locked).
    vm_compute. lia.
Defined.

(** C3 as stated fails: the first read fails on a 3-byte source, nothing
    is copied, and the process reports success: status 0, the success
    message on standard output, nothing on standard error. *)
Lemma read_failure_counterexample :
  length (contents (e_fs env_read_error) "a") = 3 /\
  exists w,
    run 4 ["backup"; "a"; "b"] env_read_error = (Some EXIT_SUCCESS, w) /\
    w_trace w = [EvOpen "a" rb (Some 0); EvOpen "b" wb (Some 1);
                 EvRead 0 0; EvClose 0; EvClose 1;
                 EvStdout (success_msg "a" "b")] /\
    stdout_of (w_trace w) = success_msg "a" "b" /\
    stderr_of (w_trace w) = "" /\
    contents (w_fs w) "b" = [].
Proof.
  split; [reflexivity|].
  eexists. split; [vm_compute; reflexivity|].
  repeat split; reflexivity.
Qed.

(** ** C4: the source cannot be opened *)

(** C4.  When the source cannot be opened (it is missing or may not be
    read), the process ends with the non-zero status [EXIT_FAILURE],
    standard error carries "Failed to open source file" with the text of
    the system error, and the only file operation made is the failed
    open of the source: no file, the destination included, is created or
    changed. *)
Theorem source_open_failure fuel prog src dst e err :
  open_error_rb (e_fs e) src = Some err ->
  exists w,
    run fuel [prog; src; dst] e = (Some EXIT_FAILURE, w) /\
    EXIT_FAILURE ≠ 0%Z /\
    stderr_of (w_trace w) =
      "Failed to open source file: " +:+ strerror err +:+ nl /\
    w_trace w = [EvOpen src rb None; EvStderr (source_open_msg err)] /\
    w_fs w = e_fs e /\
    w_fs w !! dst = e_fs e !! dst.
Proof.
  intros H. eexists. split.
  - unfold run. rewrite main_three. unfold bind at 1 2.
      rewrite backup_file_eq. unfold bind, alloc_buffer.
    rewrite (open_both_source_fails src dst (boot e) err H). reflexivity.
  - split; [done|]. split; [|done].
    cbn [w_trace log set_errno boot app stderr_of foldr].
    by rewrite append_empty_r.
Qed.

Lemma source_open_failure_witness :
  exists w,
    run 0 ["backup"; "missing"; "b"] env1 = (Some EXIT_FAILURE, w) /\
    EXIT_FAILURE ≠ 0%Z /\
    stderr_of (w_trace w) =
      "Failed to open source file: " +:+ strerror ENOENT +:+ nl /\
    w_trace w = [EvOpen "missing" rb None;
                 EvStderr (source_open_msg ENOENT)] /\
    w_fs w = e_fs env1 /\
    w_fs w !! "b" = e_fs env1 !! "b".
Proof.
  apply (source_open_failure 0 "backup" "missing" "b" env1 ENOENT).
  reflexivity.
Defined.

(** ** C5: the destination cannot be opened *)

(** C5.  When the source opens and the destination does not, the process
    ends with the non-zero status [EXIT_FAILURE], standard error carries
    "Failed to open destination file" with the text of the system error,
    the source stream is closed before [exit] is called (the close is
    the last event and no stream is left open), and no file, the source
    included, is changed. *)
Theorem dest_open_failure fuel prog src dst e err :
  open_error_rb (e_fs e) src = None ->
  open_error_wb (e_fs e) (e_create e) dst = Some err ->
  exists w,
    run fuel [prog; src; dst] e = (Some EXIT_FAILURE, w) /\
    EXIT_FAILURE ≠ 0%Z /\
    stderr_of (w_trace w) =
      "Failed to open destination file: " +:+ strerror err +:+ nl /\
    w_trace w = [EvOpen src rb (Some 0); EvOpen dst wb None;
                 EvStderr (dest_open_msg err); EvClose 0] /\
    w_streams w = ∅ /\
    w_fs w = e_fs e /\
    contents (w_fs w) src = contents (e_fs e) src.
Proof.
  intros H1 H2. eexists. split.
  - unfold run. rewrite main_three. unfold bind at 1 2.
      rewrite backup_file_eq. unfold bind, alloc_buffer.
    rewrite (open_both_dest_fails src dst (boot e) err H1 H2).
    rewrite boot_first_handle. reflexivity.
  - split; [done|].
    cbn [w_trace w_streams w_fs log set_errno set_streams boot app
         stderr_of foldr].
    rewrite append_empty_r, delete_insert_eq, delete_empty. done.
Qed.

Lemma dest_open_failure_witness :
  exists w,
    run 0 ["backup"; "a"; "ro"] env_locked = (Some EXIT_FAILURE, w) /\
    EXIT_FAILURE ≠ 0%Z /\
    stderr_of (w_trace w) =
      "Failed to open destination file: " +:+ strerror EACCES +:+ nl /\
    w_trace w = [EvOpen "a" rb (Some 0); EvOpen "ro" wb None;
                 EvStderr (dest_open_msg EACCES); EvClose 0] /\
    w_streams w = ∅ /\
    w_fs w = e_fs env_locked /\
    contents (w_fs w) "a" = contents (e_fs env_locked) "a".
Proof.
  apply (dest_open_failure 0 "backup" "a" "ro" env_locked EACCES);
    reflexivity.
Defined.

(** ** C6: the argument count *)

(** C6.  With any number of positional arguments other than two, the
    process ends with the non-zero status [EXIT_FAILURE]; the usage
    message on standard error is its only event, so no file is opened,
    read, written or closed, and the files are as they were. *)
Theorem usage_error fuel prog (args : list string) e :
  length args ≠ 2 ->
  exists w,
    run fuel (prog :: args) e = (Some EXIT_FAILURE, w) /\
    EXIT_FAILURE ≠ 0%Z /\
    stderr_of (w_trace w) =
      "Usage: " +:+ prog +:+ " <source_file> <destination_file>" +:+ nl /\
    w_trace w = [EvStderr (usage prog)] /\
    filter (fun ev => is_file_io ev = true) (w_trace w) = [] /\
    w_streams w = ∅ /\
    w_fs w = e_fs e.
Proof.
  intros Hn. eexists. split.
  - unfold run. rewrite main_wrong_argc by (simpl; lia). reflexivity.
  - split; [done|].
    cbn [w_trace w_streams w_fs log boot app stderr_of foldr arg nth].
    rewrite append_empty_r. done.
Qed.

Lemma usage_error_witness :
  (exists w,
     run 0 ["backup"] env1 = (Some EXIT_FAILURE, w) /\
     EXIT_FAILURE ≠ 0%Z /\
     stderr_of (w_trace w) =
       "Usage: " +:+ "backup" +:+ " <source_file> <destination_file>" +:+ nl /\
     w_trace w = [EvStderr (usage "backup")] /\
     filter (fun ev => is_file_io ev = true) (w_trace w) = [] /\
     w_streams w = ∅ /\
     w_fs w = e_fs env1) /\
  (exists w,
     run 0 ["backup"; "a"; "b"; "c"] env1 = (Some EXIT_FAILURE, w) /\
     EXIT_FAILURE ≠ 0%Z /\
     stderr_of (w_trace w) =
       "Usage: " +:+ "backup" +:+ " <source_file> <destination_file>" +:+ nl /\
     w_trace w = [EvStderr (usage "backup")] /\
     filter (fun ev => is_file_io ev = true) (w_trace w) = [] /\
     w_streams w = ∅ /\
     w_fs w = e_fs env1).
Proof.
  split.
  - apply (usage_error 0 "backup" [] env1). simpl. lia.
  - apply (usage_error 0 "backup" ["a"; "b"; "c"] env1). simpl. lia.
Defined.

(** ** C7: a longer destination is overwritten *)

(** C7.  When the destination exists with more bytes than the source and
    the copy succeeds (no I/O fails), the "wb" open leaves the
    destination empty, and at the end it holds exactly the bytes of the
    source: its length is the length of the source, none of its old
    bytes remain and nothing is appended to them. *)
Theorem overwrite_longer_destination fuel prog src dst e orig old :
  e_fs e !! src = Some orig ->
  e_fs e !! dst = Some old ->
  length (f_data orig) < length (f_data old) ->
  io_ok e src dst ->
  length (f_data orig) < fuel ->
  exists w,
    run fuel [prog; src; dst] e = (Some EXIT_SUCCESS, w) /\
    contents (w_fs (opened src dst e)) dst = [] /\
    contents (w_fs w) dst = f_data orig /\
    length (contents (w_fs w) dst) = length (f_data orig).
Proof.
  intros Horig Hold Hlen Hok Hfuel.
  assert (src ≠ dst) as Hne.
  { intros ->. rewrite Horig in Hold. injection Hold as ->. lia. }
  assert (contents (e_fs e) src = f_data orig) as Hc
    by (unfold contents; by rewrite Horig).
  destruct (run_io_ok fuel prog src dst e Hne Hok) as (w & Hrun & Hfs);
    [rewrite Hc; exact Hfuel|].
  exists w. split; [exact Hrun|]. split.
  { unfold opened, contents. cbn [w_fs log set_streams set_fs].
    rewrite lookup_insert_eq. unfold truncated. by rewrite Hold. }
  assert (contents (w_fs w) dst = f_data orig) as Hd.
  { unfold contents at 1. by rewrite Hfs, lookup_insert_eq. }
  split; [exact Hd | by rewrite Hd].
Qed.

Lemma overwrite_longer_destination_witness :
  exists w,
    run 4 ["backup"; "a"; "b"] env_longer_dest = (Some EXIT_SUCCESS, w) /\
    contents (w_fs (opened "a" "b" env_longer_dest)) "b" = [] /\
    contents (w_fs w) "b" = abc /\
    length (contents (w_fs w) "b") = length abc.
Proof.
  apply (overwrite_longer_destination 4 "backup" "a" "b" env_longer_dest
           (File abc true true) (File [x31; x32; x33; x34; x35] true true)).
  - reflexivity.
  - reflexivity.
  - simpl. lia.
  - repeat split; constructor.
  - simpl. lia.
Defined.

(** ** C8: sources of a whole number of buffers *)

(** C8, as amended.  When source and destination are different files, no
    I/O fails and the source holds exactly [k] buffers of 1024 bytes,
    the loop makes exactly [k] rounds, each a read of 1024 bytes and a
    write of those 1024 bytes, then one read that returns zero bytes,
    and ends there; the destination then holds exactly the bytes of the
    source. *)
Theorem aligned_copy fuel prog src dst e k :
  src ≠ dst ->
  io_ok e src dst ->
  length (contents (e_fs e) src) = k * buffer_size ->
  length (contents (e_fs e) src) < fuel ->
  exists w,
    run fuel [prog; src; dst] e = (Some EXIT_SUCCESS, w) /\
    w_trace w =
      [EvOpen src rb (Some 0); EvOpen dst wb (Some 1)] ++
      full_rounds 0 1 k ++
      [EvRead 0 0; EvClose 0; EvClose 1; EvStdout (success_msg src dst)] /\
    contents (w_fs w) dst = contents (e_fs e) src /\
    length (contents (w_fs w) dst) = k * buffer_size.
Proof.
  intros Hne Hok Hk Hfuel.
  destruct (run_io_ok fuel prog src dst e Hne Hok Hfuel) as (w & Hrun & Hfs).
  exists w. split; [exact Hrun|].
  assert (contents (w_fs w) dst = contents (e_fs e) src) as Hd.
  { unfold contents at 1. by rewrite Hfs, lookup_insert_eq. }
  split; [|split; [exact Hd | by rewrite Hd]].
  destruct Hok as (H1 & H2 & Hr & Hw).
  destruct (open_error_rb_None _ _ H1) as (orig & Horig & _).
  unfold contents in Hk, Hfuel. rewrite Horig in Hk, Hfuel.
  cbn [from_option] in Hk, Hfuel.
  pose proof (copying_at_entry src dst e orig Hne Horig) as I.
  destruct (copy_loop_aligned (e_fs e) src dst 0 1 orig
              (truncated (e_fs e) dst) ltac:(done) Hne Horig k fuel
              (resize buffer_size x00 (e_stack e)) _ _ _ I Hr Hw)
    as (w' & Hloop & Htr); [lia | pose proof buffer_size_pos; nia |].
  rewrite (run_after_loop fuel prog src dst e w' H1 H2 Hloop) in Hrun.
  injection Hrun as <-. rewrite closed_trace, Htr.
  unfold opened. cbn [w_trace log set_streams set_fs boot].
  rewrite <- !app_assoc. reflexivity.
Qed.

Lemma aligned_copy_witness :
  exists w,
    run 1025 ["backup"; "a"; "b"] env_one_buffer = (Some EXIT_SUCCESS, w) /\
    w_trace w =
      [EvOpen "a" rb (Some 0); EvOpen "b" wb (Some 1)] ++
      full_rounds 0 1 1 ++
      [EvRead 0 0; EvClose 0; EvClose 1; EvStdout (success_msg "a" "b")] /\
    contents (w_fs w) "b" = contents (e_fs env_one_buffer) "a" /\
    length (contents (w_fs w) "b") = 1 * buffer_size.
Proof.
  apply (aligned_copy 1025 "backup" "a" "b" env_one_buffer 1).
  - discriminate.
  - repeat split; constructor.
  - vm_compute. reflexivity.
  - vm_compute. lia.
Defined.

(** C8 as stated fails when both arguments name one file of exactly one
    buffer: nothing fails, the first read already returns zero bytes, no
    round is made, and the 1024-byte source is left empty. *)
Lemma aligned_same_file_counterexample :
  io_ok env_one_buffer "a" "a" /\
  length (contents (e_fs env_one_buffer) "a") = 1 * buffer_size /\
  exists w,
    run 1025 ["backup"; "a"; "a"] env_one_buffer = (Some EXIT_SUCCESS, w) /\
    w_trace w = [EvOpen "a" rb (Some 0); EvOpen "a" wb (Some 1);
                 EvRead 0 0; EvClose 0; EvClose 1;
                 EvStdout (success_msg "a" "a")] /\
    contents (w_fs w) "a" = [] /\
    length (contents (w_fs w) "a") ≠ length (contents (e_fs env_one_buffer) "a").
Proof.
  split; [repeat split; constructor|]. split; [vm_compute; reflexivity|].
  eexists. split; [vm_compute; reflexivity|].
  split; [reflexivity|]. split; [reflexivity|].
  vm_compute. lia.
Qed.

(** ** C9: the report of success *)

(** C9.  Whenever both files open, and so in every run in which the copy
    succeeds, the process ends with status 0 and standard output carries
    "Backup successful from SRC to DST", which names both paths. *)
Theorem success_exit_and_message fuel prog src dst e :
  open_error_rb (e_fs e) src = None ->
  open_error_wb (e_fs e) (e_create e) dst = None ->
  length (contents (e_fs e) src) < fuel ->
  exists w,
    run fuel [prog; src; dst] e = (Some 0%Z, w) /\
    stdout_of (w_trace w) =
      "Backup successful from " +:+ src +:+ " to " +:+ dst +:+ nl /\
    substring_of src (stdout_of (w_trace w)) /\
    substring_of dst (stdout_of (w_trace w)).
Proof.
  intros H1 H2 Hfuel.
  destruct (run_opened fuel prog src dst e H1 H2 Hfuel)
    as (w & Hrun & Hq & _).
  exists (closed src dst w). split; [exact Hrun|].
  destruct (closed_stdout src dst w Hq) as [-> _].
  split; [done|]. split.
  - apply substring_of_mid.
  - exists ("Backup successful from " +:+ src +:+ " to "), nl.
    unfold success_msg. by rewrite !append_assoc.
Qed.

Lemma success_exit_and_message_witness :
  exists w,
    run 4 ["backup"; "a"; "b"] env1 = (Some 0%Z, w) /\
    stdout_of (w_trace w) =
      "Backup successful from " +:+ "a" +:+ " to " +:+ "b" +:+ nl /\
    substring_of "a" (stdout_of (w_trace w)) /\
    substring_of "b" (stdout_of (w_trace w)).
Proof.
  apply (success_exit_and_message 4 "backup" "a" "b" env1).
  - reflexivity.
  - reflexivity.
  - vm_compute. lia.
Defined.

(** ** C10: what the destination holds while the loop runs *)

Lemma opened_same_path_stuck path e buffer y :
  ~ loop_step 0 1 (opened path path e, buffer) y.
Proof.
  unfold loop_step. cbn [fst snd].
  rewrite (loop_body_empty_source 0 1 buffer (opened path path e)
             (Stream path 0) (Stream path 0)); [done|done|..].
  - unfold opened. cbn [w_streams log set_streams set_fs].
    by rewrite lookup_insert_ne, lookup_insert_eq.
  - unfold opened. cbn [w_streams log set_streams set_fs].
    by rewrite lookup_insert_eq.
  - unfold opened, contents. cbn [w_fs log set_streams set_fs s_path].
    rewrite lookup_insert_eq. unfold truncated.
    by destruct (e_fs e !! path).
Qed.

(** C10, as amended.  In every state the loop reaches after the two
    opens, the destination is never longer than the number of bytes read
    so far, which is never more than the length of the source; and as
    long as no write so far transferred fewer bytes than requested, the
    destination holds a prefix of the source: exactly the bytes read so
    far. *)
Theorem written_prefix_invariant src dst e s d w1 buffer x :
  open_both src dst (boot e) = (Ret (s, d), w1) ->
  rtc (loop_step s d) (w1, buffer) x ->
  length (contents (w_fs x.1) dst) ≤ bytes_read (w_trace x.1) /\
  bytes_read (w_trace x.1) ≤ length (contents (e_fs e) src) /\
  length (contents (w_fs x.1) dst) ≤ length (contents (e_fs e) src) /\
  (full_writes (w_trace x.1) ->
   contents (w_fs x.1) dst =
     take (bytes_read (w_trace x.1)) (contents (e_fs e) src) /\
   contents (w_fs x.1) dst `prefix_of` contents (e_fs e) src).
Proof.
  intros Hopen Hreach.
  destruct (open_both_boot_inv _ _ _ _ _ _ Hopen) as (H1 & H2 & -> & -> & ->).
  destruct (decide (src = dst)) as [<-|Hne].
  - assert (x = (opened src src e, buffer)) as ->.
    { inversion Hreach as [|? y ? Hstep _]; [done|].
      by apply opened_same_path_stuck in Hstep. }
    assert (contents (w_fs (opened src src e)) src = []) as Hc.
    { unfold opened, contents. cbn [w_fs log set_streams set_fs].
      rewrite lookup_insert_eq. unfold truncated.
      by destruct (e_fs e !! src). }
    cbn [fst]. rewrite Hc. cbn [length].
    split; [lia|]. split; [simpl; lia|]. split; [lia|].
    intros _. split; [by rewrite take_0 | apply prefix_nil].
  - destruct (open_error_rb_None _ _ H1) as (orig & Horig & _).
    pose proof (copying_at_entry src dst e orig Hne Horig) as I.
    destruct (copying_reachable (e_fs e) src dst 0 1 orig
                (truncated (e_fs e) dst) ltac:(done) Hne Horig
                _ _ Hreach 0 [] I) as (r & out & I').
    destruct (copying_contents _ _ _ _ _ _ _ _ _ _ Hne Horig I') as [-> _].
    assert (contents (e_fs e) src = f_data orig) as ->
      by (unfold contents; by rewrite Horig).
    destruct I' as [_ _ _ Hb Hl Hrd _ Hpre _]. rewrite Hrd.
    split; [lia|]. split; [lia|]. split; [lia|].
    intros Hf. rewrite (Hpre Hf). split; [done | apply prefix_take].
Qed.

Lemma written_prefix_invariant_witness :
  let x := next_state 0 1 (opened "a" "b" env1, []) in
  length (contents (w_fs x.1) "b") ≤ bytes_read (w_trace x.1) /\
  bytes_read (w_trace x.1) ≤ length (contents (e_fs env1) "a") /\
  length (contents (w_fs x.1) "b") ≤ length (contents (e_fs env1) "a") /\
  (full_writes (w_trace x.1) ->
   contents (w_fs x.1) "b" =
     take (bytes_read (w_trace x.1)) (contents (e_fs env1) "a") /\
   contents (w_fs x.1) "b" `prefix_of` contents (e_fs env1) "a").
Proof.
  intros x.
  apply (written_prefix_invariant "a" "b" env1 0 1 (opened "a" "b" env1) []).
  - vm_compute. reflexivity.
  - apply rtc_once. unfold loop_step. vm_compute. reflexivity.
Defined.

(** C10 as stated fails: the first write transfers nothing, the loop goes
    on, and after its second round the destination holds the single byte
    01, which is not how the source begins. *)
Lemma prefix_broken_counterexample :
  let x0 := (opened "a" "b" env_gap, resize buffer_size x00 (e_stack env_gap)) in
  let x2 := next_state 0 1 (next_state 0 1 x0) in
  open_both "a" "b" (boot env_gap) = (Ret (0, 1), x0.1) /\
  rtc (loop_step 0 1) x0 x2 /\
  contents (w_fs x2.1) "b" = [x01] /\
  ~ contents (w_fs x2.1) "b" `prefix_of` contents (e_fs env_gap) "a".
Proof.
  intros x0 x2. split; [vm_compute; reflexivity|]. split.
  { eapply (rtc_l _ _ (next_state 0 1 x0));
      [unfold loop_step; vm_compute; reflexivity|].
    apply rtc_once. unfold loop_step. vm_compute. reflexivity. }
  assert (contents (w_fs x2.1) "b" = [x01]) as Hc
    by (vm_compute; reflexivity).
  split; [exact Hc|]. rewrite Hc. intros [k Hk]. discriminate Hk.
Qed.

(** * Further properties of [backup_file] and [main] *)

(** ** The shape of every run *)

Lemma run_source_fails fuel prog src dst e err :
  open_error_rb (e_fs e) src = Some err ->
  run fuel [prog; src; dst] e =
    (Some EXIT_FAILURE,
     log (EvStderr (source_open_msg err))
       (log (EvOpen src rb None) (set_errno err (boot e)))).
Proof.
  intros H. unfold run. rewrite main_three. unfold bind at 1 2.
  rewrite backup_file_eq. unfold bind, alloc_buffer.
  rewrite (open_both_source_fails src dst (boot e) err H). reflexivity.
Qed.

Lemma run_dest_fails fuel prog src dst e err :
  open_error_rb (e_fs e) src = None ->
  open_error_wb (e_fs e) (e_create e) dst = Some err ->
  run fuel [prog; src; dst] e =
    (Some EXIT_FAILURE,
     log (EvClose 0)
       (set_streams (delete 0 (<[0 := Stream src 0]> ∅))
          (log (EvStderr (dest_open_msg err))
             (log (EvOpen dst wb None)
                (set_errno err
                   (log (EvOpen src rb (Some 0))
                      (set_streams (<[0 := Stream src 0]> ∅)
                         (boot e)))))))).
Proof.
  intros H1 H2. unfold run. rewrite main_three. unfold bind at 1 2.
  rewrite backup_file_eq. unfold bind, alloc_buffer.
  rewrite (open_both_dest_fails src dst (boot e) err H1 H2).
  rewrite boot_first_handle. reflexivity.
Qed.

(** When both files open, the loop ends on any fuel above the length of
    the source, and the run is what follows the loop. *)
Lemma run_both_open fuel prog src dst e :
  open_error_rb (e_fs e) src = None ->
  open_error_wb (e_fs e) (e_create e) dst = None ->
  length (contents (e_fs e) src) < fuel ->
  exists w,
    copy_loop fuel 0 1 (resize buffer_size x00 (e_stack e))
      (opened src dst e) = (Ret tt, w) /\
    run fuel [prog; src; dst] e = (Some EXIT_SUCCESS, closed src dst w) /\
    w_fs w !! dst = Some (with_data (contents (w_fs w) dst)
                                    (truncated (e_fs e) dst)) /\
    (forall p, p ≠ dst -> w_fs w !! p = e_fs e !! p) /\
    length (contents (w_fs w) dst) = bytes_written (w_trace w).
Proof.
  intros H1 H2 Hfuel.
  destruct (decide (src = dst)) as [<-|Hne].
  - exists (after_read 0 (Stream src 0) 0 (opened src src e)).
    assert (copy_loop fuel 0 1 (resize buffer_size x00 (e_stack e))
              (opened src src e)
            = (Ret tt, after_read 0 (Stream src 0) 0 (opened src src e)))
      as Hloop.
    { destruct fuel as [|fuel]; [lia|]. rewrite copy_loop_S.
      rewrite (loop_body_empty_source 0 1 _ (opened src src e)
                 (Stream src 0) (Stream src 0)); [done|done|..].
      - unfold opened. cbn [w_streams log set_streams set_fs].
        by rewrite lookup_insert_ne, lookup_insert_eq.
      - unfold opened. cbn [w_streams log set_streams set_fs].
        by rewrite lookup_insert_eq.
      - unfold opened, contents. cbn [w_fs log set_streams set_fs s_path].
        rewrite lookup_insert_eq. unfold truncated.
        by destruct (e_fs e !! src). }
    split; [exact Hloop|]. split; [by apply run_after_loop|].
    unfold after_read, opened, contents.
    cbn [w_fs w_trace log set_rfaults set_streams set_fs boot].
    rewrite lookup_insert_eq. cbn [from_option].
    split; [|split].
    + unfold truncated. by destruct (e_fs e !! src).
    + intros p Hp. by rewrite lookup_insert_ne.
    + unfold truncated. by destruct (e_fs e !! src).
  - destruct (open_error_rb_None _ _ H1) as (orig & Horig & _).
    unfold contents in Hfuel. rewrite Horig in Hfuel.
    cbn [from_option] in Hfuel.
    pose proof (copying_at_entry src dst e orig Hne Horig) as I.
    destruct (copy_loop_runs (e_fs e) src dst 0 1 orig
                (truncated (e_fs e) dst) ltac:(done) Hne Horig fuel
                (resize buffer_size x00 (e_stack e)) _ _ _ I)
      as (w & r & out & Hloop & I' & _); [lia|].
    exists w. split; [exact Hloop|]. split; [by apply run_after_loop|].
    unfold contents. rewrite (cp_fs _ _ _ _ _ _ _ _ _ _ I').
    rewrite lookup_insert_eq. cbn [from_option with_data f_data].
    split; [|split].
    + unfold with_data. cbn [f_readable f_writable]. done.
    + intros p Hp. by rewrite lookup_insert_ne.
    + by rewrite (cp_written _ _ _ _ _ _ _ _ _ _ I').
Qed.

Lemma argv_three (argv : list string) :
  length argv = 3 -> argv = [arg argv 0; arg argv 1; arg argv 2].
Proof. by destruct argv as [|p [|s [|d [|? ?]]]]. Qed.

(** Every run, on fuel above the length of the source, is one of four:
    the usage failure, the two open failures, or the copy. *)
Lemma run_cases fuel argv e :
  length (contents (e_fs e) (arg argv 1)) < fuel ->
  let src := arg argv 1 in
  let dst := arg argv 2 in
  (length argv ≠ 3 /\
   run fuel argv e =
     (Some EXIT_FAILURE, log (EvStderr (usage (arg argv 0))) (boot e))) \/
  (length argv = 3 /\
   exists err,
     open_error_rb (e_fs e) src = Some err /\
     run fuel argv e =
       (Some EXIT_FAILURE,
        log (EvStderr (source_open_msg err))
          (log (EvOpen src rb None) (set_errno err (boot e))))) \/
  (length argv = 3 /\
   exists err,
     open_error_rb (e_fs e) src = None /\
     open_error_wb (e_fs e) (e_create e) dst = Some err /\
     run fuel argv e =
       (Some EXIT_FAILURE,
        log (EvClose 0)
          (set_streams (delete 0 (<[0 := Stream src 0]> ∅))
             (log (EvStderr (dest_open_msg err))
                (log (EvOpen dst wb None)
                   (set_errno err
                      (log (EvOpen src rb (Some 0))
                         (set_streams (<[0 := Stream src 0]> ∅)
                            (boot e))))))))) \/
  (length argv = 3 /\
   open_error_rb (e_fs e) src = None /\
   open_error_wb (e_fs e) (e_create e) dst = None /\
   exists w,
     copy_loop fuel 0 1 (resize buffer_size x00 (e_stack e))
       (opened src dst e) = (Ret tt, w) /\
     run fuel argv e = (Some EXIT_SUCCESS, closed src dst w) /\
     w_fs w !! dst = Some (with_data (contents (w_fs w) dst)
                                     (truncated (e_fs e) dst)) /\
     (forall p, p ≠ dst -> w_fs w !! p = e_fs e !! p) /\
     length (contents (w_fs w) dst) = bytes_written (w_trace w)).
Proof.
  intros Hfuel src dst.
  destruct (decide (length argv = 3)) as [H3|H3].
  2:{ left. split; [done|]. unfold run. by rewrite main_wrong_argc. }
  right. rewrite (argv_three argv H3). fold src dst.
  destruct (open_error_rb (e_fs e) src) as [err|] eqn:H1.
  { left. split; [done|]. exists err. split; [done|].
    by apply run_source_fails. }
  right.
  destruct (open_error_wb (e_fs e) (e_create e) dst) as [err|] eqn:H2.
  { left. split; [done|]. exists err. split; [done|]. split; [done|].
    by apply run_dest_fails. }
  right. split; [done|]. split; [done|]. split; [done|].
  destruct (run_both_open fuel (arg argv 0) src dst e H1 H2 Hfuel)
    as (w & Hloop & Hrun & Hrest).
  exists w. split; [exact Hloop|]. split; [exact Hrun | exact Hrest].
Qed.

(** ** The exit status *)

(** The process reports success exactly when it is given two arguments
    and both files open; in every other case its status is
    [EXIT_FAILURE].  Nothing that happens inside the loop changes the
    status. *)
Theorem exit_status_characterised fuel argv e :
  length (contents (e_fs e) (arg argv 1)) < fuel ->
  exists status w,
    run fuel argv e = (Some status, w) /\
    (status = EXIT_SUCCESS \/ status = EXIT_FAILURE) /\
    (status = EXIT_SUCCESS <->
     length argv = 3 /\
     open_error_rb (e_fs e) (arg argv 1) = None /\
     open_error_wb (e_fs e) (e_create e) (arg argv 2) = None).
Proof.
  intros Hfuel.
  destruct (run_cases fuel argv e Hfuel)
    as [[H3 Hrun] | [(H3 & err & H1 & Hrun) | [(H3 & err & H1 & H2 & Hrun)
        | (H3 & H1 & H2 & w & _ & Hrun & _)]]];
    eexists _, _; (split; [exact Hrun|]).
  - split; [by right|]. split; [done | by intros (? & _)].
  - split; [by right|]. split; [done|]. intros (_ & H & _). congruence.
  - split; [by right|]. split; [done|]. intros (_ & _ & H). congruence.
  - split; [by left|]. done.
Qed.

Lemma exit_status_characterised_witness :
  exists status w,
    run 4 ["backup"; "a"; "ro"] env_locked = (Some status, w) /\
    (status = EXIT_SUCCESS \/ status = EXIT_FAILURE) /\
    (status = EXIT_SUCCESS <->
     length ["backup"; "a"; "ro"] = 3 /\
     open_error_rb (e_fs env_locked) "a" = None /\
     open_error_wb (e_fs env_locked) (e_create env_locked) "ro" = None).
Proof.
  apply (exit_status_characterised 4 ["backup"; "a"; "ro"] env_locked).
  vm_compute. lia.
Defined.

(** ** What a run leaves alone *)

(** Whatever the arguments, the files and the faults, no file other than
    the one named by the second argument is created, removed or
    changed. *)
Theorem only_destination_changes fuel argv e :
  length (contents (e_fs e) (arg argv 1)) < fuel ->
  exists status w,
    run fuel argv e = (Some status, w) /\
    forall p, p ≠ arg argv 2 -> w_fs w !! p = e_fs e !! p.
Proof.
  intros Hfuel.
  destruct (run_cases fuel argv e Hfuel)
    as [[H3 Hrun] | [(H3 & err & H1 & Hrun) | [(H3 & err & H1 & H2 & Hrun)
        | (H3 & H1 & H2 & w & _ & Hrun & _ & Hframe & _)]]];
    eexists _, _; (split; [exact Hrun|]); try done.
Qed.

Lemma only_destination_changes_witness :
  exists status w,
    run 4 ["backup"; "a"; "b"] env_short_write = (Some status, w) /\
    forall p, p ≠ "b" -> w_fs w !! p = e_fs env_short_write !! p.
Proof.
  apply (only_destination_changes 4 ["backup"; "a"; "b"] env_short_write).
  vm_compute. lia.
Defined.

(** ** The destination after the opens *)



(** ** The events of the loop and the streams it holds *)

Lemma read_chunk_length w st n : length (read_chunk w st n) ≤ n.
Proof.
  unfold read_chunk.
  etrans; [apply transferred_length|]. rewrite length_take. lia.
Qed.

(** Whatever the files and the schedules, a loop that ends leaves the
    same streams open, and its events are rounds of a read and its
    write, closed by one read of nothing. *)
Lemma copy_loop_events fuel : forall s d buffer w w',
  s ≠ d ->
  is_Some (w_streams w !! s) ->
  is_Some (w_streams w !! d) ->
  copy_loop fuel s d buffer w = (Ret tt, w') ->
  dom (w_streams w') = dom (w_streams w) /\
  exists tr,
    w_trace w' = w_trace w ++ tr ++ [EvRead s 0] /\
    alternating s d tr = true.
Proof.
  induction fuel as [|fuel IH];
    intros s d buffer w w' Hsd [ss Hs] [sd Hd] H; [done|].
  rewrite copy_loop_S in H.
  pose proof (loop_body_eq s d buffer w ss sd Hsd Hs Hd) as E.
  cbv zeta in E. rewrite E in H. clear E.
  pose proof (read_chunk_length w ss buffer_size) as Hlen.
  destruct (read_chunk w ss buffer_size) as [|x got'] eqn:Eg.
  - injection H as <-. unfold after_read.
    cbn [w_streams w_trace log set_rfaults set_streams]. split.
    + by rewrite dom_insert_lookup_L.
    + exists []. done.
  - set (got := x :: got') in *.
    set (put := transferred (next_fault (w_wfaults w)).1 got) in *.
    pose proof (transferred_length (next_fault (w_wfaults w)).1 got) as Hp.
    fold put in Hp.
    apply IH in H as (Hdom & tr & Htr & Halt); [|done|..].
    + split.
      * rewrite Hdom. unfold after_write, after_read.
        cbn [w_streams log set_rfaults set_wfaults set_streams set_fs].
        rewrite !dom_insert_lookup_L; [done..|].
        by rewrite lookup_insert_ne.
      * exists (EvRead s (length got) :: EvWrite d (length got) (length put)
                  :: tr).
        split.
        { rewrite Htr. unfold after_write, after_read.
          cbn [w_trace log set_rfaults set_wfaults set_streams set_fs].
          by rewrite <- !app_assoc. }
        cbn [alternating]. rewrite Halt.
        assert (0 < length got) as Hpos by (unfold got; simpl; lia).
        by rewrite !bool_decide_eq_true_2 by first [done | lia].
    + unfold after_write, after_read.
      cbn [w_streams log set_rfaults set_wfaults set_streams set_fs].
      rewrite lookup_insert_ne, lookup_insert_eq by done. eauto.
    + unfold after_write, after_read.
      cbn [w_streams log set_rfaults set_wfaults set_streams set_fs].
      rewrite lookup_insert_eq. eauto.
Qed.

Lemma opened_streams src dst e :
  w_streams (opened src dst e) =
    <[1 := Stream dst 0]> (<[0 := Stream src 0]> ∅).
Proof. reflexivity. Qed.

(** On every path out of the program, whatever the arguments, the files
    and the faults, no stream is left open: what was opened has been
    closed by the time [main] returns or [exit] is called. *)
Theorem no_stream_left_open fuel argv e :
  length (contents (e_fs e) (arg argv 1)) < fuel ->
  exists status w,
    run fuel argv e = (Some status, w) /\
    w_streams w = ∅.
Proof.
  intros Hfuel.
  destruct (run_cases fuel argv e Hfuel)
    as [[H3 Hrun] | [(H3 & err & H1 & Hrun) | [(H3 & err & H1 & H2 & Hrun)
        | (H3 & H1 & H2 & w & Hloop & Hrun & _)]]];
    eexists _, _; (split; [exact Hrun|]); [done..|].
  apply copy_loop_events in Hloop as [Hdom _];
    [|done|rewrite opened_streams..].
  2:{ rewrite lookup_insert_ne, lookup_insert_eq by done. eauto. }
  2:{ rewrite lookup_insert_eq. eauto. }
  unfold closed. cbn [w_streams log set_streams].
    apply dom_empty_iff_L. rewrite !dom_delete_L, Hdom, opened_streams.
    rewrite !dom_insert_L, dom_empty_L. reflexivity.
Qed.

Lemma no_stream_left_open_witness :
  exists status w,
    run 4 ["backup"; "a"; "b"] env_short_write = (Some status, w) /\
    w_streams w = ∅.
Proof.
  apply (no_stream_left_open 4 ["backup"; "a"; "b"] env_short_write).
  vm_compute. lia.
Defined.

(** Whenever both files open, the events of the run are, in this order:
    the two opens; rounds, each a read of between 1 and 1024 bytes
    followed at once by the write that asks for exactly the bytes just
    read; one read that returns nothing; the close of the source, the
    close of the destination, and the success message.  This holds
    under every fault schedule. *)
Theorem run_events_shape fuel prog src dst e :
  open_error_rb (e_fs e) src = None ->
  open_error_wb (e_fs e) (e_create e) dst = None ->
  length (contents (e_fs e) src) < fuel ->
  exists w tr,
    run fuel [prog; src; dst] e = (Some EXIT_SUCCESS, w) /\
    w_trace w =
      [EvOpen src rb (Some 0); EvOpen dst wb (Some 1)] ++ tr ++
      [EvRead 0 0; EvClose 0; EvClose 1; EvStdout (success_msg src dst)] /\
    alternating 0 1 tr = true.
Proof.
  intros H1 H2 Hfuel.
  destruct (run_both_open fuel prog src dst e H1 H2 Hfuel)
    as (w & Hloop & Hrun & _).
  apply copy_loop_events in Hloop as [_ (tr & Htr & Halt)];
    [|done|rewrite opened_streams..].
  2:{ rewrite lookup_insert_ne, lookup_insert_eq by done. eauto. }
  2:{ rewrite lookup_insert_eq. eauto. }
  exists (closed src dst w), tr. split; [exact Hrun|]. split; [|exact Halt].
  rewrite closed_trace, Htr. unfold opened.
  cbn [w_trace log set_streams set_fs boot].
  by rewrite <- !app_assoc.
Qed.

Lemma run_events_shape_witness :
  exists w tr,
    run 4 ["backup"; "a"; "b"] env_short_reads = (Some EXIT_SUCCESS, w) /\
    w_trace w =
      [EvOpen "a" rb (Some 0); EvOpen "b" wb (Some 1)] ++ tr ++
      [EvRead 0 0; EvClose 0; EvClose 1; EvStdout (success_msg "a" "b")] /\
    alternating 0 1 tr = true.
Proof.
  apply (run_events_shape 4 "backup" "a" "b" env_short_reads).
  - reflexivity.
  - reflexivity.
  - vm_compute. lia.
Defined.

(** ** Short reads *)

Lemma no_empty_reads_next l :
  no_empty_reads l ->
  (next_fault l).1 ≠ Some 0 /\ no_empty_reads (next_fault l).2.
Proof.
  destruct l as [|x l]; simpl; [done|].
  intros H. by inversion H; subst.
Qed.

Lemma transferred_nil flt (l : list byte) :
  flt ≠ Some 0 -> transferred flt l = [] -> l = [].
Proof.
  destruct flt as [k|]; simpl; [|done].
  intros Hk [->|H]%take_nil_inv; done.
Qed.

Lemma take_buffer_nil (l : list byte) : take buffer_size l = [] -> l = [].
Proof.
  intros [H|H]%take_nil_inv; [|done].
  pose proof buffer_size_pos. lia.
Qed.

(** A loop whose reads are never cut to nothing stops only at the end of
    the source. *)
Lemma copy_loop_short_reads fs0 src dst s d orig fd0 fuel :
  s ≠ d -> src ≠ dst -> fs0 !! src = Some orig ->
  forall buffer w r out w',
    copying fs0 src dst s d orig fd0 w r out ->
    no_empty_reads (w_rfaults w) ->
    copy_loop fuel s d buffer w = (Ret tt, w') ->
    exists out',
      copying fs0 src dst s d orig fd0 w' (length (f_data orig)) out'.
Proof.
  intros Hsd Hne Horig.
  induction fuel as [|fuel IH]; intros buffer w r out w' I Hr H; [done|].
  rewrite copy_loop_S in H.
  pose proof (copying_chunk fs0 src dst s d orig fd0 Hne Horig w r out I)
    as Hc.
  destruct (no_empty_reads_next _ Hr) as [Hflt Hr'].
  destruct (read_chunk w (Stream src r) buffer_size) as [|x got'] eqn:E.
  - destruct (loop_body_stop fs0 src dst s d orig fd0 Hsd buffer w r out I E)
      as [Hrun I'].
    rewrite Hrun in H. injection H as <-.
    symmetry in Hc. apply transferred_nil in Hc; [|exact Hflt].
    apply take_buffer_nil in Hc.
    assert (r = length (f_data orig)) as <-.
    { pose proof (cp_bound _ _ _ _ _ _ _ _ _ _ I) as Hb.
      apply (f_equal length) in Hc. rewrite length_drop in Hc.
      cbn [length] in Hc. lia. }
    eauto.
  - assert (read_chunk w (Stream src r) buffer_size ≠ []) as Hg
      by (rewrite E; done).
    destruct (loop_body_round fs0 src dst s d orig fd0 Hsd Hne Horig
                buffer w r out I Hg) as [Hrun I'].
    rewrite Hrun in H.
    eapply IH; [exact I' | | exact H].
    unfold after_write, after_read.
    cbn [w_rfaults log set_rfaults set_wfaults set_streams set_fs].
    exact Hr'.
Qed.

(** Reads that deliver fewer bytes than asked for lose nothing: when
    source and destination are different files, every read delivers at
    least one byte while one is left, and no write is cut short, the
    destination ends up holding exactly the bytes of the source. *)
Theorem short_reads_lose_nothing fuel prog src dst e :
  src ≠ dst ->
  open_error_rb (e_fs e) src = None ->
  open_error_wb (e_fs e) (e_create e) dst = None ->
  no_empty_reads (e_rfaults e) ->
  no_faults (e_wfaults e) ->
  length (contents (e_fs e) src) < fuel ->
  exists w,
    run fuel [prog; src; dst] e = (Some EXIT_SUCCESS, w) /\
    contents (w_fs w) dst = contents (e_fs e) src.
Proof.
  intros Hne H1 H2 Hr Hw Hfuel.
  destruct (open_error_rb_None _ _ H1) as (orig & Horig & _).
  assert (contents (e_fs e) src = f_data orig) as Hc
    by (unfold contents; by rewrite Horig).
  rewrite Hc in *.
  pose proof (copying_at_entry src dst e orig Hne Horig) as I.
  destruct (copy_loop_runs (e_fs e) src dst 0 1 orig
              (truncated (e_fs e) dst) ltac:(done) Hne Horig fuel
              (resize buffer_size x00 (e_stack e)) _ _ _ I)
    as (w & r & out & Hloop & _ & _ & Hfull & _); [lia|].
  destruct (copy_loop_short_reads (e_fs e) src dst 0 1 orig
              (truncated (e_fs e) dst) fuel ltac:(done) Hne Horig
              _ _ _ _ _ I Hr Hloop) as (out' & I').
  exists (closed src dst w). split; [by apply run_after_loop|].
  rewrite closed_fs.
  destruct (copying_contents _ _ _ _ _ _ _ _ _ _ Hne Horig I') as [-> _].
  rewrite (cp_prefix _ _ _ _ _ _ _ _ _ _ I').
  - by rewrite firstn_all.
  - apply Hfull; [exact Hw|]. unfold opened.
    cbn [w_trace log set_streams set_fs boot]. by repeat constructor.
Qed.

Lemma short_reads_lose_nothing_witness :
  exists w,
    run 4 ["backup"; "a"; "b"] env_short_reads = (Some EXIT_SUCCESS, w) /\
    contents (w_fs w) "b" = contents (e_fs env_short_reads) "a".
Proof.
  apply (short_reads_lose_nothing 4 "backup" "a" "b" env_short_reads).
  - discriminate.
  - reflexivity.
  - reflexivity.
  - repeat constructor; discriminate.
  - constructor.
  - vm_compute. lia.
Defined.

(** ** The bytes the buffer held before the first read *)

Lemma fopen_with_stack path m k w :
  fopen path m (with_stack k w) =
    ((fopen path m w).1, with_stack k (fopen path m w).2).
Proof.
  unfold fopen, new_stream, open_failed. cbn [w_fs w_create with_stack].
  destruct m.
  - by destruct (open_error_rb (w_fs w) path).
  - by destruct (open_error_wb (w_fs w) (w_create w) path).
Qed.

Lemma copy_loop_with_stack fuel : forall s d b1 b2 k w,
  copy_loop fuel s d b1 (with_stack k w) =
    ((copy_loop fuel s d b2 w).1, with_stack k (copy_loop fuel s d b2 w).2).
Proof.
  induction fuel as [|fuel IH]; intros s d b1 b2 k w; [done|].
  cbn [copy_loop]. unfold bind, fread. cbn [w_streams w_fs w_rfaults with_stack].
  destruct (w_streams w !! s) as [st|]; [|done].
  destruct (next_fault (w_rfaults w)) as [flt rest].
  set (got := transferred flt _).
  destruct (0 <? length got); [|done].
  unfold fwrite.
  cbn [w_streams w_fs w_wfaults log set_rfaults set_streams with_stack].
  destruct (<[s:=advance (length got) st]> (w_streams w) !! d) as [sd|].
  - rewrite !take_app_length.
    destruct (next_fault (w_wfaults w)) as [flt' rest'].
    match goal with
    | |- _ = ((copy_loop _ _ _ ?B2 ?W2).1, _) => exact (IH s d _ B2 k W2)
    end.
  - match goal with
    | |- _ = ((copy_loop _ _ _ ?B2 ?W2).1, _) => exact (IH s d _ B2 k W2)
    end.
Qed.

Lemma backup_file_with_stack fuel src dst k w :
  (backup_file fuel src dst (with_stack k w)).1 =
    (backup_file fuel src dst w).1 /\
  (backup_file fuel src dst (with_stack k w)).2 =
    with_stack k (backup_file fuel src dst w).2.
Proof.
  unfold backup_file, bind, alloc_buffer. rewrite fopen_with_stack.
  destruct (fopen src rb w) as [[[srcFile|]| |] w1]; cbn [fst snd];
    [|done..].
  rewrite fopen_with_stack.
  destruct (fopen dst wb w1) as [[[destFile|]| |] w2]; cbn [fst snd];
    [|done..].
  rewrite (copy_loop_with_stack fuel srcFile destFile _
             (resize buffer_size x00 (w_stack w)) k w2).
  by destruct (copy_loop fuel srcFile destFile _ w2) as [[[]| |] w3].
Qed.

(** The bytes that lie in [buffer] before the first read are never
    observed: started with other bytes there, the process ends with the
    same status and leaves the same files, streams and events.  Only the
    bytes a read delivered are ever handed to a write. *)
Theorem stack_bytes_never_observed fuel argv e k :
  (run fuel argv (env_with_stack k e)).1 = (run fuel argv e).1 /\
  (run fuel argv (env_with_stack k e)).2 = with_stack k (run fuel argv e).2.
Proof.
  unfold run.
  change (boot (env_with_stack k e)) with (with_stack k (boot e)).
  generalize (boot e). intros w. unfold main.
  destruct (negb (length argv =? 3)); [done|].
  unfold bind.
  destruct (backup_file_with_stack fuel (arg argv 1) (arg argv 2) k w)
    as [E1 E2].
  destruct (backup_file fuel (arg argv 1) (arg argv 2) (with_stack k w))
    as [r1 w1], (backup_file fuel (arg argv 1) (arg argv 2) w) as [r2 w2].
  cbn [fst snd] in E1, E2. subst r1 w1.
  by destruct r2 as [[]| |].
Qed.

(** ** Runs one after the other *)

Lemma with_data_twice c c' f : with_data c (with_data c' f) = with_data c f.
Proof. reflexivity. Qed.

Lemma truncated_writable fs create path :
  open_error_wb fs create path = None ->
  f_writable (truncated fs path) = true.
Proof.
  unfold open_error_wb, truncated.
  destruct (fs !! path) as [f|]; [|done].
  by destruct (f_writable f) eqn:E.
Qed.

(** The files a copy without failure leaves allow the same copy again. *)
Lemma io_ok_again src dst e c :
  src ≠ dst ->
  io_ok e src dst ->
  io_ok (restart (<[dst := with_data c (truncated (e_fs e) dst)]> (e_fs e)) e)
        src dst.
Proof.
  intros Hne (H1 & H2 & _ & _). unfold io_ok, restart.
  cbn [e_fs e_create e_rfaults e_wfaults].
  split; [|split; [|split; constructor]].
  - unfold open_error_rb in *. by rewrite lookup_insert_ne.
  - unfold open_error_wb. rewrite lookup_insert_eq.
    cbn [f_writable with_data].
    by rewrite (truncated_writable _ _ _ H2).
Qed.

(** Running the same copy a second time changes nothing: when source and
    destination are different files and no I/O fails, a second run on
    the files the first one left ends with status 0 and leaves every
    file, the destination included, exactly as the first run left it. *)
Theorem rerun_changes_nothing fuel prog src dst e :
  src ≠ dst ->
  io_ok e src dst ->
  length (contents (e_fs e) src) < fuel ->
  exists w1 w2,
    run fuel [prog; src; dst] e = (Some EXIT_SUCCESS, w1) /\
    run fuel [prog; src; dst] (restart (w_fs w1) e) =
      (Some EXIT_SUCCESS, w2) /\
    w_fs w2 = w_fs w1.
Proof.
  intros Hne Hok Hfuel.
  destruct (run_io_ok fuel prog src dst e Hne Hok Hfuel) as (w1 & Hrun1 & Hfs1).
  assert (contents (w_fs w1) src = contents (e_fs e) src) as Hsrc.
  { unfold contents. by rewrite Hfs1, lookup_insert_ne. }
  destruct (run_io_ok fuel prog src dst (restart (w_fs w1) e) Hne)
    as (w2 & Hrun2 & Hfs2).
  { rewrite Hfs1. by apply io_ok_again. }
  { cbn [restart e_fs]. by rewrite Hsrc. }
  exists w1, w2. split; [exact Hrun1|]. split; [exact Hrun2|].
  rewrite Hfs2. cbn [restart e_fs]. rewrite Hsrc.
  assert (truncated (w_fs w1) dst = truncated (e_fs e) dst) as ->.
  { unfold truncated at 1. rewrite Hfs1, lookup_insert_eq.
    by rewrite with_data_twice, truncated_empty. }
  rewrite Hfs1 at 1. by rewrite insert_insert_eq.
Qed.

Lemma rerun_changes_nothing_witness :
  exists w1 w2,
    run 4 ["backup"; "a"; "b"] env_longer_dest = (Some EXIT_SUCCESS, w1) /\
    run 4 ["backup"; "a"; "b"] (restart (w_fs w1) env_longer_dest) =
      (Some EXIT_SUCCESS, w2) /\
    w_fs w2 = w_fs w1.
Proof.
  apply (rerun_changes_nothing 4 "backup" "a" "b" env_longer_dest).
  - discriminate.
  - repeat split; constructor.
  - vm_compute. lia.
Defined.

(** A copy of a copy holds the bytes of the original: after copying [a]
    to [b] and then [b] to [c] (where [b] is another file than [a] and
    [c], may be read if it was there before, and [c] may be written),
    with no I/O failure, [c] holds exactly what [a] held at the start.
    [c] may be [a] itself. *)
Theorem copy_of_copy fuel prog a b c e :
  a ≠ b -> b ≠ c ->
  io_ok e a b ->
  (forall f, e_fs e !! b = Some f -> f_readable f = true) ->
  open_error_wb (e_fs e) (e_create e) c = None ->
  length (contents (e_fs e) a) < fuel ->
  exists w1 w2,
    run fuel [prog; a; b] e = (Some EXIT_SUCCESS, w1) /\
    run fuel [prog; b; c] (restart (w_fs w1) e) = (Some EXIT_SUCCESS, w2) /\
    contents (w_fs w2) c = contents (e_fs e) a.
Proof.
  intros Hab Hbc Hok Hread Hc Hfuel.
  destruct (run_io_ok fuel prog a b e Hab Hok Hfuel) as (w1 & Hrun1 & Hfs1).
  assert (contents (w_fs w1) b = contents (e_fs e) a) as Hb.
  { unfold contents at 1. by rewrite Hfs1, lookup_insert_eq. }
  destruct (run_io_ok fuel prog b c (restart (w_fs w1) e) Hbc)
    as (w2 & Hrun2 & Hfs2).
  { unfold io_ok, restart. cbn [e_fs e_create e_rfaults e_wfaults].
    split; [|split; [|split; constructor]].
    - unfold open_error_rb. rewrite Hfs1, lookup_insert_eq.
      cbn [f_readable with_data]. unfold truncated.
      destruct (e_fs e !! b) as [f|] eqn:E; [|done].
      cbn [f_readable with_data]. by rewrite (Hread f).
    - unfold open_error_wb in *. by rewrite Hfs1, lookup_insert_ne. }
  { cbn [restart e_fs]. by rewrite Hb. }
  exists w1, w2. split; [exact Hrun1|]. split; [exact Hrun2|].
  unfold contents at 1. rewrite Hfs2, lookup_insert_eq.
  cbn [f_data with_data restart e_fs]. exact Hb.
Qed.

Lemma copy_of_copy_witness :
  exists w1 w2,
    run 4 ["backup"; "a"; "b"] env_longer_dest = (Some EXIT_SUCCESS, w1) /\
    run 4 ["backup"; "b"; "c"] (restart (w_fs w1) env_longer_dest) =
      (Some EXIT_SUCCESS, w2) /\
    contents (w_fs w2) "c" = contents (e_fs env_longer_dest) "a".
Proof.
  apply (copy_of_copy 4 "backup" "a" "b" "c" env_longer_dest).
  - discriminate.
  - discriminate.
  - repeat split; constructor.
  - intros f Hf. vm_compute in Hf. by injection Hf as <-.
  - reflexivity.
  - vm_compute. lia.
Defined.

(** ** A read that fails at once *)

(** The destination is emptied by its open, before anything is read: when
    both files open and the first read fails before any byte arrives,
    the run ends with status 0 after that one read, and the destination
    is left in place and empty, whatever it held before. *)
Theorem failed_first_read_empties_destination fuel prog src dst e rest :
  open_error_rb (e_fs e) src = None ->
  open_error_wb (e_fs e) (e_create e) dst = None ->
  e_rfaults e = Some 0 :: rest ->
  0 < fuel ->
  exists w,
    run fuel [prog; src; dst] e = (Some EXIT_SUCCESS, w) /\
    w_fs w !! dst = Some (truncated (e_fs e) dst) /\
    contents (w_fs w) dst = [] /\
    w_trace w = [EvOpen src rb (Some 0); EvOpen dst wb (Some 1);
                 EvRead 0 0; EvClose 0; EvClose 1;
                 EvStdout (success_msg src dst)].
Proof.
  intros H1 H2 Hrf Hfuel.
  exists (closed src dst (after_read 0 (Stream src 0) 0 (opened src dst e))).
  split.
  - apply run_after_loop; [done..|].
    destruct fuel as [|fuel]; [lia|]. rewrite copy_loop_S.
    pose proof (loop_body_eq 0 1 (resize buffer_size x00 (e_stack e))
                  (opened src dst e) (Stream src 0) (Stream dst 0)
                  ltac:(done)) as E.
    cbv zeta in E. rewrite E; clear E.
    + assert (read_chunk (opened src dst e) (Stream src 0) buffer_size = [])
        as ->; [|done].
      unfold read_chunk, opened.
      cbn [w_rfaults log set_streams set_fs boot]. rewrite Hrf.
      cbn [next_fault fst transferred]. apply take_0.
    + unfold opened. cbn [w_streams log set_streams set_fs].
      by rewrite lookup_insert_ne, lookup_insert_eq.
    + unfold opened. cbn [w_streams log set_streams set_fs].
      by rewrite lookup_insert_eq.
  - rewrite closed_fs, closed_trace. unfold after_read, opened, contents.
    cbn [w_fs w_trace log set_rfaults set_streams set_fs boot].
    rewrite lookup_insert_eq. split; [done|]. split; [|done].
    unfold truncated. by destruct (e_fs e !! dst).
Qed.

Lemma failed_first_read_empties_destination_witness :
  exists w,
    run 1 ["backup"; "a"; "b"]
        (mkEnv (e_fs env_longer_dest) (fun _ => None) [Some 0] [] [])
      = (Some EXIT_SUCCESS, w) /\
    w_fs w !! "b" = Some (truncated (e_fs env_longer_dest) "b") /\
    contents (w_fs w) "b" = [] /\
    w_trace w = [EvOpen "a" rb (Some 0); EvOpen "b" wb (Some 1);
                 EvRead 0 0; EvClose 0; EvClose 1;
                 EvStdout (success_msg "a" "b")].
Proof.
  apply (failed_first_read_empties_destination 1 "backup" "a" "b"
           (mkEnv (e_fs env_longer_dest) (fun _ => None) [Some 0] [] []) []).
  - reflexivity.
  - reflexivity.
  - reflexivity.
  - lia.
Defined.
